(** * Marvin: routing, answer composition and the per-conversation session

    A shallow embedding of [marvin/marvin.py]: the route registration of
    [Marvin.answer], the [Answer] object ([_apply_language], [msg],
    [_get_config], [_send]) and the [_Session] pipeline
    ([handle_text_message], [prepare_answer], [handle_error],
    [handle_answer], [on_callback_query]).

    Python objects are modelled by a small universe of values, exceptions
    by an explicit result type, and every interaction with the outside
    (logger, chat transport, continuation calls) is appended to a trace
    kept in the session state. *)

From stdpp Require Import base option list strings pretty gmap.
From Stdlib Require Import ZArith Ascii String Permutation.

Set Warnings "-register-all".
Open Scope string_scope.

(** ** Characters and the string methods used by the source *)

Definition nl : string := String (ascii_of_nat 10) "".
Definition tab : string := String (ascii_of_nat 9) "".
Definition dq : string := String (ascii_of_nat 34) "".

(** [c in s] for a one-character needle. *)
Fixpoint contains_char (c : ascii) (s : string) : bool :=
  match s with
  | EmptyString => false
  | String d r => if Ascii.eqb c d then true else contains_char c r
  end.

(** [s.split(c, 1)] when [c] occurs in [s]: the text before the first
    occurrence and the text after it.  Without an occurrence the whole
    string is the first component. *)
Fixpoint split_once (c : ascii) (s : string) : string * string :=
  match s with
  | EmptyString => (EmptyString, EmptyString)
  | String d r =>
      if Ascii.eqb c d then (EmptyString, r)
      else let '(a, b) := split_once c r in (String d a, b)
  end.

(** [s.split(c)[0]]. *)
Definition split_first (c : ascii) (s : string) : string := fst (split_once c s).

(** [s.split(c)[-1]]: the text after the last occurrence of [c]. *)
Fixpoint split_last (c : ascii) (s : string) : string :=
  match s with
  | EmptyString => EmptyString
  | String d r =>
      if contains_char c r then split_last c r
      else if Ascii.eqb c d then r else s
  end.

(** [str.lower] on the ASCII letters; other bytes are left as they are. *)
Definition lower_ascii (c : ascii) : ascii :=
  let n := nat_of_ascii c in
  if (65 <=? n)%nat && (n <=? 90)%nat then ascii_of_nat (n + 32) else c.

Fixpoint lower (s : string) : string :=
  match s with
  | EmptyString => EmptyString
  | String c r => String (lower_ascii c) (lower r)
  end.

(** [sep.join(l)]. *)
Fixpoint join (sep : string) (l : list string) : string :=
  match l with
  | [] => ""
  | [x] => x
  | x :: r => x ++ sep ++ join sep r
  end.

(** ** Exceptions *)

(** The exception classes the pipeline distinguishes, and the ones the
    interpreter raises on the paths modelled here.  All of them derive
    from [Exception], and so does a [UserException]: what only derives
    from [BaseException] (KeyboardInterrupt, SystemExit, a cancelled
    task) is not modelled. *)
Inductive exn_class :=
| KeyError | IndexError | TypeError | AttributeError | ValueError
| OSError | FileNotFoundError | TelegramError
| UserException (name : string).

(** The last frame of a traceback, as [traceback.extract_tb(...)[-1]]. *)
Record FrameSummary := mkFrame {
  tb_filename : string;
  tb_name : string;
  tb_lineno : string;
  tb_line : string }.

Record exn := mkExn {
  exn_cls : exn_class;
  exn_args : list string;       (* e.args, each rendered as text *)
  exn_filename : string;        (* e.filename of an OSError *)
  exn_tb : FrameSummary }.

(** An exception raised by the interpreter itself, with its message. *)
Definition builtin_exn (c : exn_class) (m : string) : exn :=
  mkExn c [m] "" (mkFrame "marvin.py" "" "" "").

(** [isinstance(e, OSError)]: [FileNotFoundError] is a subclass. *)
Definition is_OSError (e : exn) : bool :=
  match exn_cls e with
  | OSError | FileNotFoundError => true
  | _ => false
  end.

(** What a call does: it returns a value or raises. *)
Inductive outcome (V : Type) :=
| Returns (v : V)
| Raises (e : exn).
Arguments Returns {V} v.
Arguments Raises {V} e.

(** ** Enumerations of [marvin.helper] *)

(** Modelled from the spec: [marvin.helper.Mode] is not among the
    sources; the matcher kinds are exact ([DEFAULT]), [PARSE] and
    [REGEX], the three members [Marvin.answer] names. *)
Inductive Mode := DEFAULT | REGEX | PARSE.

Global Instance Mode_eq_dec : EqDecision Mode.
Proof. solve_decision. Defined.

(** Modelled from the spec: [marvin.helper.Media] is not among the
    sources; the media kinds are text, sticker, voice, audio, photo,
    video and document. *)
Inductive Media := TEXT | STICKER | VOICE | AUDIO | PHOTO | VIDEO | DOCUMENT.

Global Instance Media_eq_dec : EqDecision Media.
Proof. solve_decision. Defined.

(** ** Answers and the universe of Python values *)

(** [choices] and [keyboard] are either a flat sequence of labels or a
    sequence of rows. *)
Inductive Buttons :=
| Flat (labels : list string)
| Grid (rows : list (list string)).

Record Answer_ (V : Type) := mkAnswer {
  _msg : option string;
  format_content : list V;
  choices : option Buttons;
  callback : option (string -> outcome V);
  keyboard : option Buttons;
  media_type : option Media;
  media : option string;
  caption : option string;
  delay : Z }.
Arguments mkAnswer {V}.
Arguments _msg {V}.
Arguments format_content {V}.
Arguments choices {V}.
Arguments callback {V}.
Arguments keyboard {V}.
Arguments media_type {V}.
Arguments media {V}.
Arguments caption {V}.
Arguments delay {V}.

(** The values a handler can return.  A generator is represented by the
    finite sequence of values it yields. *)
Inductive pyval :=
| VNone
| VBool (b : bool)
| VInt (z : Z)
| VStr (s : string)
| VAnswer (a : Answer_ pyval)
| VList (l : list pyval)
| VTuple (l : list pyval)
| VGen (l : list pyval).

Abbreviation Answer := (Answer_ pyval).

(** [Answer(msg, *format_content)] with every keyword at its default. *)
Definition Answer_new (m : string) (fc : list pyval) : Answer :=
  mkAnswer (Some m) fc None None None None None None 0.

(** [repr] of a string.  Python quotes with the apostrophe, unless the
    text holds an apostrophe and no double quote, and escapes the
    backslash, the quote in use and the control characters.  Characters
    above 127 are kept, as Python keeps the printable ones. *)
Definition bs : string := String (ascii_of_nat 92) "".

Definition hex_digit (n : nat) : string :=
  String.substring n 1 "0123456789abcdef".

Definition repr_quote (s : string) : ascii :=
  if contains_char "'" s && negb (contains_char (ascii_of_nat 34) s)
  then ascii_of_nat 34 else "'"%char.

Definition repr_char (q c : ascii) : string :=
  let n := nat_of_ascii c in
  if (n =? 92)%nat then bs ++ bs
  else if Ascii.eqb c q then bs ++ String q ""
  else if (n =? 10)%nat then bs ++ "n"
  else if (n =? 13)%nat then bs ++ "r"
  else if (n =? 9)%nat then bs ++ "t"
  else if (n <? 32)%nat || (n =? 127)%nat
       then bs ++ "x" ++ hex_digit (n / 16)%nat ++ hex_digit (n mod 16)%nat
  else String c "".

Fixpoint repr_body (q : ascii) (s : string) : string :=
  match s with
  | EmptyString => EmptyString
  | String c r => repr_char q c ++ repr_body q r
  end.

Definition str_repr (s : string) : string :=
  let q := repr_quote s in
  String q (repr_body q s) ++ String q "".

(** [repr] and [str] of a value.  An object without a [__repr__] of its
    own is rendered by its class; the address that ends the default
    rendering is left out. *)
Fixpoint py_repr (v : pyval) : string :=
  match v with
  | VNone => "None"
  | VBool true => "True"
  | VBool false => "False"
  | VInt z => pretty z
  | VStr s => str_repr s
  | VAnswer _ => "<marvin.marvin.Answer object>"
  | VList l => "[" ++ join ", " (List.map py_repr l) ++ "]"
  | VTuple [x] => "(" ++ py_repr x ++ ",)"
  | VTuple l => "(" ++ join ", " (List.map py_repr l) ++ ")"
  | VGen _ => "<generator object>"
  end.

Definition py_str (v : pyval) : string :=
  match v with
  | VStr s => s
  | _ => py_repr v
  end.

Definition opt_str (o : option string) : string :=
  match o with
  | Some s => s
  | None => "None"
  end.

(** ** Transport requests and the trace *)

(** [InlineKeyboardMarkup] (each button carries its label as callback
    data) and [ReplyKeyboardMarkup]. *)
Inductive Markup :=
| InlineKeyboardMarkup (inline_keyboard : list (list (string * string)))
| ReplyKeyboardMarkup (rows : list (list string)) (one_time_keyboard : bool).

(** The values found in the keyword dictionary of [_get_config]. *)
Inductive kwval :=
| KStr (o : option string)
| KInt (o : option Z)
| KBool (b : bool)
| KMarkup (o : option Markup).

(** One call of [sender.sendMessage], [sender.sendSticker], ...: the kind
    selects the operation, the content is the text, the sticker id or the
    path of the opened file. *)
Record request := mkRequest {
  rq_kind : Media;
  rq_content : option string;
  rq_kwargs : list (string * kwval) }.

Inductive level := INFO | WARNING | CRITICAL.

Inductive event :=
| EvLog (lvl : level) (text : string)
| EvSend (rq : request) (reply : exn + Z)
| EvAck (query_id : string) (reply : option exn)
| EvEdit (chat : Z) (mid : Z) (text : string) (parse_mode : option string)
         (reply : option exn)
| EvInvoke (mid : Z) (data : string).

Definition is_send (ev : event) : bool :=
  match ev with EvSend _ (inr _) => true | _ => false end.
Definition is_send_call (ev : event) : bool :=
  match ev with EvSend _ _ => true | _ => false end.
Definition is_invoke (ev : event) : bool :=
  match ev with EvInvoke _ _ => true | _ => false end.
Definition is_ack (ev : event) : bool :=
  match ev with EvAck _ _ => true | _ => false end.

(** The number of messages the user received, and the number of
    continuation calls, in a trace. *)
Definition outbound (tr : list event) : nat := List.length (List.filter is_send tr).
Definition invocations (tr : list event) : nat := List.length (List.filter is_invoke tr).

(** ** The world outside the module

    The libraries and the platform the module calls into.  The matchers
    stand for [parse.parse] and [re] as used by [marvin.helper], the
    formatter for [str.format], and the transport answers each call from
    the history of the conversation so far. *)
Record World := mkWorld {
  parse_match : string -> string -> option (gmap string pyval);
  regex_match : string -> string -> option (gmap string pyval);
  str_format : string -> list pyval -> exn + string;
  file_exists : string -> bool;
  send_reply : list event -> request -> exn + Z;
  ack_reply : list event -> string -> option exn;
  edit_reply : list event -> Z -> Z -> string -> option string -> option exn }.

(** ** Configuration, routes and the session *)

(** The configuration keys read through [_config_value], with the
    defaults of the source applied by the loader. *)
Record Config := mkConfig {
  mark_as_answer : bool;
  markup : option string;
  language_feature : bool;
  strict_mode : bool;
  disable_web_preview : bool;
  disable_notification : bool;
  error_reply : option string;
  replace_query : bool }.

(** A handler is what it does on its bound keyword arguments. *)
Abbreviation kwargs := (gmap string pyval).
Abbreviation handler := (gmap string pyval -> outcome pyval).
Abbreviation continuation := (string -> outcome pyval).

(** The class-level state of [_Session]: the three routing tables, the
    default handler and the language file, with the configuration. *)
Record Bot := mkBot {
  simple_routes : gmap string handler;
  parse_routes : list (string * handler);
  regex_routes : list (string * handler);
  default_answer : handler;
  language : gmap string (gmap string string);
  config : Config }.

(** Modelled from the spec: [marvin.helper.User] and
    [marvin.helper.Message] are not among the sources; a user has an
    identity, an optional language code and a printed form, a message an
    identity and a text. *)
Record User := mkUser {
  user_id : Z;
  language_code : option string;
  user_repr : string }.

Record Message := mkMessage {
  message_id : Z;
  message_text : string }.

Record Query := mkQuery {
  query_id : string;
  query_data : string;
  query_message_id : Z }.

Record Session := mkSession {
  user : User;
  query_callback : gmap Z continuation;
  last_sent : option (Answer * Z);
  ctx_message : option Message;     (* _context 'message' *)
  ctx_user : option User;           (* _context 'user' *)
  trace : list event }.

Definition new_session (u : User) : Session :=
  mkSession u ∅ None None None [].

(** ** Computations that mutate the session and may raise *)

Inductive result (A : Type) :=
| Return (a : A)
| Raise (e : exn)
| Diverge.                 (* RecursionError: the recursion budget ran out *)
Arguments Return {A} a.
Arguments Raise {A} e.
Arguments Diverge {A}.

Definition Py (A : Type) : Type := Session -> result A * Session.

Definition ret {A} (a : A) : Py A := fun s => (Return a, s).
Definition raise {A} (e : exn) : Py A := fun s => (Raise e, s).
Definition diverge {A} : Py A := fun s => (Diverge, s).

Definition bind {A B} (m : Py A) (k : A -> Py B) : Py B :=
  fun s =>
    match m s with
    | (Return a, s') => k a s'
    | (Raise e, s') => (Raise e, s')
    | (Diverge, s') => (Diverge, s')
    end.

Notation "'let*' x ':=' m 'in' k" := (bind m (fun x => k))
  (at level 10, x pattern, m at level 100, k at level 200).
Notation "m ';;;' k" := (bind m (fun _ => k))
  (at level 100, k at level 200, right associativity).

(** [try: m  except Exception as e: h e]. *)
Definition try_except {A} (m : Py A) (h : exn -> Py A) : Py A :=
  fun s =>
    match m s with
    | (Raise e, s') => h e s'
    | r => r
    end.

Definition emit (ev : event) : Py unit :=
  fun s => (Return tt,
            mkSession (user s) (query_callback s) (last_sent s)
                      (ctx_message s) (ctx_user s) (trace s ++ [ev])).

Definition log_ (lvl : level) (text : string) : Py unit := emit (EvLog lvl text).

Definition get {A} (f : Session -> A) : Py A := fun s => (Return (f s), s).

Definition set_context (m : Message) (u : User) : Py unit :=
  fun s => (Return tt,
            mkSession (user s) (query_callback s) (last_sent s)
                      (Some m) (Some u) (trace s)).

Definition set_last_sent (a : Answer) (sent : Z) : Py unit :=
  fun s => (Return tt,
            mkSession (user s) (query_callback s) (Some (a, sent))
                      (ctx_message s) (ctx_user s) (trace s)).

Definition set_query_callback (t : gmap Z continuation) : Py unit :=
  fun s => (Return tt,
            mkSession (user s) t (last_sent s)
                      (ctx_message s) (ctx_user s) (trace s)).

(** The result of a call made by the pipeline. *)
Definition call (o : outcome pyval) : Py pyval :=
  match o with
  | Returns v => ret v
  | Raises e => raise e
  end.

Definition of_sum {A} (r : exn + A) : Py A :=
  match r with
  | inl e => raise e
  | inr a => ret a
  end.

(** ** Routing tables *)

(** [d[k] = v] on a dictionary kept in insertion order: an existing key
    keeps its place and takes the new value, a new key goes last. *)
Fixpoint dict_setitem {V} (k : string) (v : V) (d : list (string * V))
  : list (string * V) :=
  match d with
  | [] => [(k, v)]
  | (k', v') :: r =>
      if String.eqb k k' then (k, v) :: r else (k', v') :: dict_setitem k v r
  end.

(** Modelled from the spec: [marvin.helper.ParsingDict] and
    [marvin.helper.RegExDict] are not among the sources.  Both are
    dictionaries from pattern to handler; [text in d] holds when the text
    can be matched against some pattern of [d], and [d[text]] is the
    handler of the first such pattern together with the match. *)
Fixpoint match_getitem (m : string -> string -> option kwargs)
    (d : list (string * handler)) (text : string) : exn + (handler * kwargs) :=
  match d with
  | [] => inl (builtin_exn KeyError text)
  | (p, f) :: r =>
      match m p text with
      | Some named => inr (f, named)
      | None => match_getitem m r text
      end
  end.

Definition match_contains (m : string -> string -> option kwargs)
    (d : list (string * handler)) (text : string) : bool :=
  existsb (fun pf => match m (fst pf) text with Some _ => true | None => false end) d.

Definition set_simple_routes (b : Bot) (t : gmap string handler) : Bot :=
  mkBot t (parse_routes b) (regex_routes b) (default_answer b) (language b) (config b).
Definition set_parse_routes (b : Bot) (t : list (string * handler)) : Bot :=
  mkBot (simple_routes b) t (regex_routes b) (default_answer b) (language b) (config b).
Definition set_regex_routes (b : Bot) (t : list (string * handler)) : Bot :=
  mkBot (simple_routes b) (parse_routes b) t (default_answer b) (language b) (config b).

(** [Marvin.answer(message, mode)(func)]: the decorator's effect on the
    class-level tables.  The first test is an [if] of its own; the
    [else] belongs to the second. *)
Definition answer (message : string) (mode : Mode) (func : handler) (b : Bot) : Bot :=
  let b1 :=
    if decide (mode = REGEX)
    then set_regex_routes b (dict_setitem message func (regex_routes b))
    else b in
  if decide (mode = PARSE)
  then set_parse_routes b1 (dict_setitem message func (parse_routes b1))
  else set_simple_routes b1 (<[message := func]> (simple_routes b1)).

(** A run of registrations, in the order the decorators are applied. *)
Definition register_all (regs : list (string * Mode * handler)) (b : Bot) : Bot :=
  fold_left (fun b r => answer (fst (fst r)) (snd (fst r)) (snd r) b) regs b.

(** ** The Answer object *)

Definition set__msg (a : Answer) (v : option string) : Answer :=
  mkAnswer v (format_content a) (choices a) (callback a) (keyboard a)
           (media_type a) (media a) (caption a) (delay a).
Definition set_choices (a : Answer) (v : option Buttons) : Answer :=
  mkAnswer (_msg a) (format_content a) v (callback a) (keyboard a)
           (media_type a) (media a) (caption a) (delay a).
Definition set_media_type (a : Answer) (v : option Media) : Answer :=
  mkAnswer (_msg a) (format_content a) (choices a) (callback a) (keyboard a)
           v (media a) (caption a) (delay a).
Definition set_media (a : Answer) (v : option string) : Answer :=
  mkAnswer (_msg a) (format_content a) (choices a) (callback a) (keyboard a)
           (media_type a) v (caption a) (delay a).
Definition set_caption (a : Answer) (v : option string) : Answer :=
  mkAnswer (_msg a) (format_content a) (choices a) (callback a) (keyboard a)
           (media_type a) (media a) v (delay a).

(** [Answer.media_commands.get(command, Media.TEXT)]. *)
Definition media_commands_get (command : string) : Media :=
  if String.eqb command "sticker" then STICKER
  else if String.eqb command "voice" then VOICE
  else if String.eqb command "audio" then AUDIO
  else if String.eqb command "photo" then PHOTO
  else if String.eqb command "video" then VIDEO
  else if String.eqb command "document" then DOCUMENT
  else TEXT.

(** [command in ("sticker", "audio", "voice", "document", "photo", "video")]. *)
Definition is_media_command (command : string) : bool :=
  existsb (String.eqb command)
          ["sticker"; "audio"; "voice"; "document"; "photo"; "video"].

(** [_Session.language[code][key]]; [None] stands for the [KeyError]. *)
Definition language_lookup (b : Bot) (code : string) (key : option string)
  : option string :=
  match key with
  | Some k => language b !! code ≫= (fun t => t !! k)
  | None => None
  end.

(** The "Apply formatting" step of [_apply_language]. *)
Definition apply_formatting (W : World) (self : Answer) (answer : string)
  : Py (option string) :=
  match format_content self with
  | [] => ret (Some answer)
  | fc => let* t := of_sum (str_format W answer fc) in ret (Some t)
  end.

Definition _apply_language (W : World) (b : Bot) (self : Answer)
  : Py (option string) :=
  let* u := get ctx_user in
  let* code :=
    match u ≫= language_code with
    | Some c => ret (lower (split_first "_" c))
    | None => raise (builtin_exn AttributeError
                       "'NoneType' object has no attribute")
    end in
  match language_lookup b code (_msg self) with
  | Some answer => apply_formatting W self answer
  | None =>
      match language_lookup b "default" (_msg self) with
      | Some answer => apply_formatting W self answer
      | None =>
          if strict_mode (config b)
          then log_ CRITICAL ("Language key " ++ dq ++ opt_str (_msg self)
                                ++ dq ++ " not found!") ;;;
               raise (builtin_exn KeyError (opt_str (_msg self)))
          else ret (_msg self)
      end
  end.

(** The "Retrieve message" step of [msg]. *)
Definition retrieve_message (W : World) (b : Bot) (self : Answer)
  : Py (option string) :=
  if language_feature (config b) then _apply_language W b self
  else ret (_msg self).

(** The "determine media type" step of [msg], entered when the media
    type is unset. *)
Definition determine_media (m : option string) (self : Answer)
  : Py (option string * Answer) :=
  match m with
  | None => raise (builtin_exn TypeError "argument of type 'NoneType' is not iterable")
  | Some text =>
      if contains_char ":" text then
        let '(command, payload) := split_once ":" text in
        if is_media_command command then
          let self1 :=
            if contains_char ";" payload
            then let '(med, cap) := split_once ";" payload in
                 set_caption (set_media self (Some med)) (Some cap)
            else set_media self (Some payload) in
          ret (None, set_media_type (set__msg self1 None)
                                    (Some (media_commands_get command)))
        else ret (Some text, set_media_type self (Some (media_commands_get command)))
      else ret (Some text, set_media_type self (Some (media_commands_get "")))
  end.

(** The property [Answer.msg]: the text to send, and the object as the
    call leaves it. *)
Definition msg (W : World) (b : Bot) (self : Answer) : Py (option string * Answer) :=
  let* m := retrieve_message W b self in
  match media_type self with
  | None => determine_media m self
  | Some _ => ret (m, self)
  end.

(** [[[y for y in l[x*2:(x+1)*2]] for x in range(int(math.ceil(len(l)/2)))]]. *)
Definition pair_up {A} (l : list A) : list (list A) :=
  List.map (fun x => firstn ((x + 1) * 2 - x * 2) (skipn (x * 2) l))
           (seq 0 ((List.length l + 1) / 2)).

(** [isinstance(buttons[0], str)]. *)
Definition first_is_str (bs : Buttons) : exn + bool :=
  match bs with
  | Flat (_ :: _) => inr true
  | Grid (_ :: _) => inr false
  | _ => inl (builtin_exn IndexError "list index out of range")
  end.

(** Iterating a string yields its characters. *)
Fixpoint chars (s : string) : list string :=
  match s with
  | EmptyString => []
  | String c r => String c "" :: chars r
  end.

(** The rows and cells seen by [for row in buttons: for text in row]. *)
Definition rows_of (bs : Buttons) : list (list string) :=
  match bs with
  | Flat l => List.map chars l
  | Grid rows => rows
  end.

Definition labels_of (bs : Buttons) : exn + list string :=
  match bs with
  | Flat l => inr l
  | Grid _ => inl (builtin_exn TypeError "rows where labels are expected")
  end.

(** The keyboard built by [_get_config], and the object as the call
    leaves it. *)
Definition build_keyboard (self : Answer) : Py (option Markup * Answer) :=
  match choices self with
  | Some ch =>
      let* flat := of_sum (first_is_str ch) in
      let* self1 :=
        if (flat : bool)
        then let* l := of_sum (labels_of ch) in
             ret (set_choices self (Some (Grid (pair_up l))))
        else ret self in
      let rows := match choices self1 with Some c => rows_of c | None => [] end in
      ret (Some (InlineKeyboardMarkup
                   (List.map (List.map (fun text => (text, text))) rows)), self1)
  | None =>
      match keyboard self with
      | Some kb =>
          let* flat := of_sum (first_is_str kb) in
          let* self1 :=
            if (flat : bool)
            then (* the pairing reads self.choices, which is None here *)
                 match choices self with
                 | None => raise (builtin_exn TypeError
                                    "object of type 'NoneType' has no len()")
                 | Some ch =>
                     let* l := of_sum (labels_of ch) in
                     ret (set_choices self (Some (Grid (pair_up l))))
                 end
            else ret self in
          ret (Some (ReplyKeyboardMarkup (rows_of kb) true), self1)
      | None => ret (None, self)
      end
  end.

Definition _get_config (b : Bot) (self : Answer)
  : Py (list (string * kwval) * Answer) :=
  let* (kb, self1) := build_keyboard self in
  let* reply_to :=
    if mark_as_answer (config b)
    then let* m := get ctx_message in
         match m with
         | Some m => ret (Some (message_id m))
         | None => raise (builtin_exn AttributeError
                            "'NoneType' object has no attribute 'id'")
         end
    else ret None in
  ret ([("parse_mode", KStr (markup (config b)));
        ("reply_to_message_id", KInt reply_to);
        ("disable_web_page_preview", KBool (disable_web_preview (config b)));
        ("disable_notification", KBool (disable_notification (config b)));
        ("reply_markup", KMarkup kb);
        ("caption", KStr (caption self1))], self1).

(** [{key: kwargs[key] for key in kwargs if key in keys}]. *)
Definition select (keys : list string) (kw : list (string * kwval))
  : list (string * kwval) :=
  List.filter (fun kv => existsb (String.eqb (fst kv)) keys) kw.

(** [open(self.media, "rb")]. *)
Definition open_rb (W : World) (path : option string) : Py (option string) :=
  match path with
  | None => raise (builtin_exn TypeError "expected str, bytes or os.PathLike object")
  | Some p =>
      if file_exists W p then ret (Some p)
      else raise (mkExn FileNotFoundError ["2"; "No such file or directory"] p
                        (mkFrame "marvin.py" "_send" "" ""))
  end.

(** One call of a send operation of the transport. *)
Definition transport_send (W : World) (rq : request) : Py Z :=
  let* h := get trace in
  let r := send_reply W h rq in
  emit (EvSend rq r) ;;; of_sum r.

Definition _send (W : World) (b : Bot) (self : Answer) : Py (Z * Answer) :=
  let* (m, self1) := msg W b self in
  let* (kw, self2) := _get_config b self1 in
  let* sent :=
    match media_type self2 with
    | Some TEXT =>
        transport_send W (mkRequest TEXT m
          (select ["parse_mode"; "disable_web_page_preview"; "disable_notification";
                   "reply_to_message_id"; "reply_markup"] kw))
    | Some STICKER =>
        transport_send W (mkRequest STICKER (media self2)
          (select ["disable_notification"; "reply_to_message_id"; "reply_markup"] kw))
    | Some VOICE =>
        let* f := open_rb W (media self2) in
        transport_send W (mkRequest VOICE f
          (select ["caption"; "parse_mode"; "duration"; "disable_notification";
                   "reply_to_message_id"; "reply_markup"] kw))
    | Some AUDIO =>
        let* f := open_rb W (media self2) in
        transport_send W (mkRequest AUDIO f
          (select ["caption"; "parse_mode"; "duration"; "performer"; "title";
                   "disable_notification"; "reply_to_message_id"; "reply_markup"] kw))
    | Some PHOTO =>
        let* f := open_rb W (media self2) in
        transport_send W (mkRequest PHOTO f
          (select ["caption"; "parse_mode"; "disable_notification";
                   "reply_to_message_id"; "reply_markup"] kw))
    | Some VIDEO =>
        let* f := open_rb W (media self2) in
        transport_send W (mkRequest VIDEO f
          (select ["duration"; "width"; "height"; "caption"; "parse_mode";
                   "supports_streaming"; "disable_notification";
                   "reply_to_message_id"; "reply_markup"] kw))
    | Some DOCUMENT =>
        let* f := open_rb W (media self2) in
        transport_send W (mkRequest DOCUMENT f
          (select ["caption"; "parse_mode"; "disable_notification";
                   "reply_to_message_id"; "reply_markup"] kw))
    | None => raise (builtin_exn TypeError "'NoneType' object is not subscriptable")
    end in
  ret (sent, self2).

(** ** The session pipeline *)

(** [_Session.handle_answer]: send each answer, remember it as the last
    one sent and record its continuation under the id of the message. *)
Fixpoint handle_answer (W : World) (b : Bot) (answers : list pyval) : Py unit :=
  match answers with
  | [] => ret tt
  | VAnswer a :: rest =>
      let* (sent, a1) := _send W b a in
      set_last_sent a1 sent ;;;
      (match callback a1 with
       | Some f =>
           let* t := get query_callback in
           set_query_callback (<[sent := f]> t)
       | None => ret tt
       end) ;;;
      handle_answer W b rest
  | _ :: _ => raise (builtin_exn AttributeError "object has no attribute '_send'")
  end.

(** The message of a caught exception: [e.args[1]] for an [OSError],
    [e.args[0]] otherwise. *)
Definition exn_message (e : exn) : exn + string :=
  match exn_args e !! (if is_OSError e then 1 else 0)%nat with
  | Some m => inr m
  | None => inl (builtin_exn IndexError "tuple index out of range")
  end.

Definition traceback_text (e : exn) : string :=
  tab ++ tab ++ "File: " ++ split_last "/" (tb_filename (exn_tb e)) ++ nl ++
  tab ++ tab ++ "Func: " ++ tb_name (exn_tb e) ++ nl ++
  tab ++ tab ++ "LiNo: " ++ tb_lineno (exn_tb e) ++ nl ++
  tab ++ tab ++ "Line: " ++ tb_line (exn_tb e) ++ nl.

(** "Convert into a complex answer to unify processing". *)
Definition is_complex (v : pyval) : bool :=
  match v with
  | VAnswer _ | VList _ | VTuple _ | VGen _ => true
  | _ => false
  end.

Definition is_Answer (v : pyval) : bool :=
  match v with VAnswer _ => true | _ => false end.

Definition unify_answer (answer : pyval) : Py pyval :=
  if negb (is_complex answer)
  then ret (VAnswer (Answer_new (py_str answer) []))
  else match answer with
       | VList [] => raise (builtin_exn IndexError "list index out of range")
       | VTuple [] => raise (builtin_exn IndexError "tuple index out of range")
       | VList (x :: rest) | VTuple (x :: rest) =>
           if negb (is_Answer x)
           then ret (VAnswer (Answer_new (py_str x) rest))
           else ret answer
       | _ => ret answer
       end.

(** "Handle complex answer" and "Handle multiple complex answers". *)
Definition dispatch_answer (W : World) (b : Bot) (answer : pyval) : Py unit :=
  match answer with
  | VAnswer a => handle_answer W b [VAnswer a]
  | VList l | VTuple l | VGen l => handle_answer W b l
  | _ => ret tt
  end.

(** The body of the [try] of [prepare_answer]; the flag tells whether the
    body ran to its end (and the [else] clause applies) or returned. *)
Definition prepare_body (W : World) (b : Bot) (answer : pyval) (log : string)
  : Py bool :=
  match answer with
  | VNone => log_ INFO (log ++ nl ++ "No answer was given") ;;; ret false
  | _ => let* a := unify_answer answer in
         dispatch_answer W b a ;;; ret true
  end.

(** The three [except] clauses of [prepare_answer], given what
    [handle_error] does. *)
Definition prepare_except (handle_error : Py unit) (log : string) (e : exn)
  : Py bool :=
  match exn_cls e with
  | FileNotFoundError =>
      log_ WARNING (log ++ nl ++ tab ++
                    "The request could not be fulfilled as the file " ++ dq ++
                    exn_filename e ++ dq ++ " could not be found") ;;;
      handle_error ;;; ret false
  | TelegramError =>
      let* m := of_sum (match exn_args e !! 0%nat with
                        | Some m => inr m
                        | None => inl (builtin_exn IndexError "tuple index out of range")
                        end) in
      log_ WARNING (log ++ nl ++ tab ++
                    "The request could not be fulfilled as an API error occured:" ++
                    nl ++ tab ++ tab ++ m ++ nl ++ tab ++
                    "Nothing was returned to the user") ;;;
      handle_error ;;; ret false
  | _ =>
      let* m := of_sum (exn_message e) in
      log_ WARNING (log ++ nl ++ tab ++
                    "During the sending of the bot's answer occured an error" ++ nl ++
                    tab ++ tab ++ "Error message: " ++ m ++ nl ++
                    traceback_text e ++ tab ++
                    "Nothing was returned to the user" ++ nl ++ tab ++
                    "You may report this bug as it either should not have occured" ++
                    "or should have been properly caught") ;;;
      handle_error ;;; ret false
  end.

(** [_Session.prepare_answer].  It and [handle_error] call each other;
    the budget bounds the depth of that recursion, as the interpreter's
    recursion limit does.  Where it runs out the interpreter raises
    RecursionError, and every call still open is then inside an [except]
    clause (that is where [handle_error] is called from), so the error
    leaves them all: this is the outcome [Diverge], which no [try_except]
    catches. *)
Fixpoint prepare_answer (W : World) (b : Bot) (fuel : nat)
    (answer : pyval) (log : string) : Py unit :=
  match fuel with
  | O => diverge
  | S n =>
      let handle_error : Py unit :=
        match error_reply (config b) with
        | Some r => prepare_answer W b n (VAnswer (Answer_new r [])) ""
        | None => ret tt
        end in
      let* completed :=
        try_except (prepare_body W b answer log)
                   (prepare_except handle_error log) in
      if (completed : bool) && negb (String.eqb log "")
      then log_ INFO log
      else ret tt
  end.

(** [_Session.handle_error]. *)
Definition handle_error (W : World) (b : Bot) (fuel : nat) : Py unit :=
  match error_reply (config b) with
  | Some r => prepare_answer W b fuel (VAnswer (Answer_new r [])) ""
  | None => ret tt
  end.

(** The route resolution of [handle_text_message]: the handler to call
    and its keyword arguments. *)
Definition resolve_route (W : World) (b : Bot) (text : string)
  : Py (handler * kwargs) :=
  match simple_routes b !! text with
  | Some func => ret (func, ∅)
  | None =>
      if match_contains (parse_match W) (parse_routes b) text then
        let* (func, matching) :=
          of_sum (match_getitem (parse_match W) (parse_routes b) text) in
        ret (func, matching)
      else if match_contains (regex_match W) (regex_routes b) text then
        let* (func, matching) :=
          of_sum (match_getitem (regex_match W) (regex_routes b) text) in
        ret (func, matching)
      else ret (default_answer b, ∅)
  end.

(** The line that opens the log entries of a text message. *)
Definition message_log (u : User) (text : string) : string :=
  "Message by " ++ user_repr u ++ ": " ++ dq ++ text ++ dq.

(** [_Session.handle_text_message]. *)
Definition handle_text_message (W : World) (b : Bot) (fuel : nat) (m : Message)
  : Py unit :=
  let text := message_text m in
  let* u := get user in
  let log := message_log u text in
  set_context m u ;;;
  let* (func, kw) := resolve_route W b text in
  let* answer :=
    try_except
      (let* v := call (func kw) in ret (Some v))
      (fun e =>
         let* em := of_sum (exn_message e) in
         log_ WARNING (log ++ nl ++ tab ++
                       "During the processing occured an error" ++ nl ++
                       tab ++ tab ++ "Error message: " ++ em ++ nl ++
                       traceback_text e ++ tab ++
                       "Nothing was returned to the user") ;;;
         handle_error W b fuel ;;;
         ret None) in
  match answer with
  | Some v => prepare_answer W b fuel v log
  | None => ret tt
  end.

(** [self.query_callback.pop(mid, None)] followed by the call of the
    continuation, if there is one. *)
Definition pop_and_invoke (q : Query) : Py pyval :=
  let* t := get query_callback in
  let func := t !! query_message_id q in
  set_query_callback (delete (query_message_id q) t) ;;;
  match func with
  | Some f =>
      emit (EvInvoke (query_message_id q) (query_data q)) ;;;
      call (f (query_data q))
  | None => ret VNone
  end.

Definition answerCallbackQuery (W : World) (qid : string) : Py unit :=
  let* h := get trace in
  let r := ack_reply W h qid in
  emit (EvAck qid r) ;;;
  match r with
  | Some e => raise e
  | None => ret tt
  end.

Definition editMessageText (W : World) (chat mid : Z) (text : string)
    (parse_mode : option string) : Py unit :=
  let* h := get trace in
  let r := edit_reply W h chat mid text parse_mode in
  emit (EvEdit chat mid text parse_mode r) ;;;
  match r with
  | Some e => raise e
  | None => ret tt
  end.

(** "Replace the query to prevent multiple activations": the text of the
    last answer is read again through its [msg] property. *)
Definition replace_query_text (W : World) (b : Bot) (q : Query) : Py unit :=
  let* u := get user in
  let* ls := get last_sent in
  match ls with
  | None => raise (builtin_exn TypeError "'NoneType' object is not subscriptable")
  | Some (a, sent) =>
      let* (m, a1) := msg W b a in
      set_last_sent a1 sent ;;;
      let text :=
        if bool_decide (markup (config b) = Some "HTML")
        then opt_str m ++ nl ++ "<b>" ++ query_data q ++ "</b>"
        else opt_str m ++ nl ++ "**" ++ query_data q ++ "**" in
      editMessageText W (user_id u) (query_message_id q) text (markup (config b))
  end.

(** What [on_callback_query] does once the continuation has answered:
    acknowledge, rewrite the message if configured, process the answer. *)
Definition acknowledge_and_answer (W : World) (b : Bot) (fuel : nat) (q : Query)
    (answer : pyval) : Py unit :=
  answerCallbackQuery W (query_id q) ;;;
  (if replace_query (config b) then replace_query_text W b q else ret tt) ;;;
  match answer with
  | VNone => ret tt
  | _ => prepare_answer W b fuel answer ""
  end.

(** [_Session.on_callback_query]. *)
Definition on_callback_query (W : World) (b : Bot) (fuel : nat) (q : Query)
  : Py unit :=
  let* answer := pop_and_invoke q in
  acknowledge_and_answer W b fuel q answer.

(** The session after an event, whatever the event's outcome. *)
Definition after {A} (m : Py A) (s : Session) : Session := snd (m s).

(** A run of callback-query events delivered one after the other. *)
Definition run_callbacks (W : World) (b : Bot) (fuel : nat) (qs : list Query)
    (s : Session) : Session :=
  fold_left (fun s q => after (on_callback_query W b fuel q) s) qs s.

(** ** A concrete world

    [str.format] restricted to the replacement fields [{}] and [{N}] and
    the doubled braces, two small matchers, and a transport that accepts
    every call and numbers the messages from 100 on, by the length of the
    history. *)

Inductive fmt_state :=
| FText
| FOpen
| FField (name : string)
| FClose.

Inductive numbering :=
| NumUnset
| NumAuto (next : nat)
| NumManual.

Definition is_digit (c : ascii) : bool :=
  let n := nat_of_ascii c in (48 <=? n)%nat && (n <=? 57)%nat.

Fixpoint digits_value (s : string) (acc : nat) : option nat :=
  match s with
  | EmptyString => Some acc
  | String c r =>
      if is_digit c then digits_value r (acc * 10 + (nat_of_ascii c - 48))
      else None
  end.

Definition format_arg (args : list pyval) (i : nat) : exn + string :=
  match args !! i with
  | Some v => inr (py_str v)
  | None => inl (builtin_exn IndexError
                   "Replacement index out of range for positional args tuple")
  end.

Definition format_field (name : string) (num : numbering) (args : list pyval)
  : exn + (string * numbering) :=
  if String.eqb name "" then
    match num with
    | NumManual =>
        inl (builtin_exn ValueError
          "cannot switch from manual field specification to automatic field numbering")
    | NumUnset => match format_arg args 0 with
                  | inr t => inr (t, NumAuto 1)
                  | inl e => inl e
                  end
    | NumAuto n => match format_arg args n with
                   | inr t => inr (t, NumAuto (S n))
                   | inl e => inl e
                   end
    end
  else
    match digits_value name 0 with
    | Some i =>
        match num with
        | NumAuto _ =>
            inl (builtin_exn ValueError
              "cannot switch from automatic field numbering to manual field specification")
        | _ => match format_arg args i with
               | inr t => inr (t, NumManual)
               | inl e => inl e
               end
        end
    | None => inl (builtin_exn KeyError name)
    end.

Fixpoint format_from (tmpl : string) (st : fmt_state) (num : numbering)
    (args : list pyval) : exn + string :=
  match tmpl with
  | EmptyString =>
      match st with
      | FText => inr ""
      | FClose => inl (builtin_exn ValueError "Single '}' encountered in format string")
      | _ => inl (builtin_exn ValueError "Single '{' encountered in format string")
      end
  | String c r =>
      let emit_char d k :=
        match k with
        | inr t => inr (String d t)
        | inl e => inl e
        end in
      let field name :=
        match format_field name num args with
        | inr (t, num') =>
            match format_from r FText num' args with
            | inr rest => inr (t ++ rest)
            | inl e => inl e
            end
        | inl e => inl e
        end in
      match st with
      | FText =>
          if Ascii.eqb c "{" then format_from r FOpen num args
          else if Ascii.eqb c "}" then format_from r FClose num args
          else emit_char c (format_from r FText num args)
      | FOpen =>
          if Ascii.eqb c "{" then emit_char c (format_from r FText num args)
          else if Ascii.eqb c "}" then field ""
          else format_from r (FField (String c "")) num args
      | FField name =>
          if Ascii.eqb c "}" then field name
          else format_from r (FField (name ++ String c "")) num args
      | FClose =>
          if Ascii.eqb c "}" then emit_char c (format_from r FText num args)
          else inl (builtin_exn ValueError "Single '}' encountered in format string")
      end
  end.

Definition py_format (tmpl : string) (args : list pyval) : exn + string :=
  format_from tmpl FText NumUnset args.

(** A pattern matches the texts it is a prefix of, and binds the rest. *)
Definition prefix_match (p text : string) : option kwargs :=
  if String.prefix p text
  then Some {[ "rest" := VStr (String.substring (String.length p)
                                 (String.length text - String.length p) text) ]}
  else None.

(** The pattern [.*] matches everything, any other pattern itself. *)
Definition tiny_regex (p text : string) : option kwargs :=
  if String.eqb p ".*" || String.eqb p text then Some ∅ else None.

Definition demo_world : World :=
  mkWorld prefix_match tiny_regex py_format (fun _ => true)
          (fun h _ => inr (100 + Z.of_nat (List.length h))%Z)
          (fun _ _ => None)
          (fun _ _ _ _ _ => None).

Definition demo_config : Config :=
  mkConfig false None false false false false None false.

Definition no_answer : handler := fun _ => Returns VNone.

Definition empty_bot (c : Config) : Bot := mkBot ∅ [] [] no_answer ∅ c.

Definition say (t : string) : handler := fun _ => Returns (VStr t).

Definition demo_language : gmap string (gmap string string) :=
  <["de" := <["hi" := "Hallo"]> ∅]> (<["default" := <["hi" := "Hi"]> ∅]> ∅).

Definition language_bot (strict : bool) (reply : option string) : Bot :=
  mkBot ∅ [] [] no_answer demo_language
        (mkConfig false None true strict false false reply false).

Definition user_with (code : string) : User := mkUser 7 (Some code) "user".

Definition session_of (code : string) : Session :=
  mkSession (user_with code) ∅ None (Some (mkMessage 1 "hi"))
            (Some (user_with code)) [].

(** ** Resolution in the words of the specification *)

Inductive Tier := ExactTier | ParseTier | RegexTier | DefaultTier.

(** The first pattern of a table, in table order, that matches the text,
    with its handler and the named captures of the match. *)
Definition first_match (m : string -> string -> option kwargs)
    (d : list (string * handler)) (text : string) : option (handler * kwargs) :=
  head (omap (fun pf => (fun named => (snd pf, named)) <$> m (fst pf) text) d).

(** Exact table first, then the parse table, then the regex table; the
    first match wins and the default handler answers when none does. *)
Definition resolution_tiered (W : World) (b : Bot) (text : string)
  : Tier * (handler * kwargs) :=
  match simple_routes b !! text with
  | Some f => (ExactTier, (f, ∅))
  | None =>
      match first_match (parse_match W) (parse_routes b) text with
      | Some r => (ParseTier, r)
      | None =>
          match first_match (regex_match W) (regex_routes b) text with
          | Some r => (RegexTier, r)
          | None => (DefaultTier, (default_answer b, ∅))
          end
      end
  end.

(** The [try] statement of [prepare_answer] around a given body: the
    three [except] clauses and the [else] clause. *)
Definition guarded (W : World) (b : Bot) (fuel : nat) (log : string)
    (body : Py bool) : Py unit :=
  let* completed :=
    try_except body (prepare_except (handle_error W b fuel) log) in
  if (completed : bool) && negb (String.eqb log "")
  then log_ INFO log
  else ret tt.

(** Sending a batch of answers as the [try] body does. *)
Definition send_all (W : World) (b : Bot) (answers : list pyval) : Py bool :=
  handle_answer W b answers ;;; ret true.

Definition demo_regs : list (string * Mode * handler) :=
  [("hi", DEFAULT, say "exact"); ("h", PARSE, say "parse"); (".*", REGEX, say "regex")].

(** Localisation in the words of the (amended) specification: the key is
    looked up under the language code cut at its first underscore and
    lower-cased, then under the language [default]. *)
Definition localized (b : Bot) (code key : string) : option string :=
  match language b !! lower (split_first "_" code) ≫= (fun t => t !! key) with
  | Some tmpl => Some tmpl
  | None => language b !! "default" ≫= (fun t => t !! key)
  end.

(** The names of the media kinds that a shorthand can carry, as the
    specification lists them; [text] is the kind of everything else. *)
Definition media_kinds : list (string * Media) :=
  [("sticker", STICKER); ("voice", VOICE); ("audio", AUDIO);
   ("photo", PHOTO); ("video", VIDEO); ("document", DOCUMENT)].

(** A handler that answers the key "bye", and bots around it. *)
Definition bye_bot (strict : bool) (reply : option string) : Bot :=
  mkBot ∅ [] [] (say "bye") demo_language
        (mkConfig false None true strict false false reply false).

Definition keyboard_answer (kb : Buttons) : Answer :=
  mkAnswer (Some "pick") [] None None (Some kb) None None None 0.

Definition choices_answer (ch : Buttons) (kb : option Buttons) : Answer :=
  mkAnswer (Some "pick") [] (Some ch) None kb None None None 0.

(** Continuations, and a tap on a button of message [M]. *)
Definition raising_continuation : continuation :=
  fun _ => Raises (mkExn ValueError ["bad choice"] ""
                         (mkFrame "/srv/bot.py" "chosen" "21" "raise ValueError")).

Definition thanks : continuation := fun data => Returns (VStr ("Thanks: " ++ data)).

Definition tap (M : Z) : Query := mkQuery "q1" "A" M.

(** A question whose buttons are answered by the continuation [f], and
    the session that has sent it and nothing else. *)
Definition question (f : continuation) : Answer :=
  mkAnswer (Some "pick") [] (Some (Flat ["A"; "B"])) (Some f) None None None None 0.

Definition asked (W : World) (f : continuation) : Session :=
  after (handle_answer W (empty_bot demo_config) [VAnswer (question f)])
        (session_of "de").

(** A continuation that answers with a question of its own. *)
Definition ask_again : continuation :=
  fun _ => Returns (VAnswer (question thanks)).

(** A transport that numbers every message 5. *)
Definition recycling_world : World :=
  mkWorld prefix_match tiny_regex py_format (fun _ => true)
          (fun _ _ => inr 5%Z)
          (fun _ _ => None)
          (fun _ _ _ _ _ => None).

(** Handlers that fail: [raise ValueError()] and [raise ValueError("boom")]. *)
Definition fails_without_args : handler :=
  fun _ => Raises (mkExn ValueError [] ""
                         (mkFrame "/srv/bot.py" "start" "12" "raise ValueError()")).

Definition fails_with_message : handler :=
  fun _ => Raises (mkExn ValueError ["boom"] ""
                         (mkFrame "/srv/bot.py" "start" "12" "raise ValueError('boom')")).

Definition failing_bot (h : handler) (reply : option string) : Bot :=
  mkBot ∅ [] [] h ∅ (mkConfig false None false false false false reply false).

(** Handlers that return a list and a tuple with nothing in them. *)
Definition returns_empty_list : handler := fun _ => Returns (VList []).

Definition returns_empty_tuple : handler := fun _ => Returns (VTuple []).

(** Relative to a set [K] of protected message ids, a step from [s] to
    [s'] keeps the continuations registered under the ids of [K] and only
    appends events that are not continuation calls. *)
Definition kept (K : Z -> Prop) (s s' : Session) : Prop :=
  (forall k, K k -> query_callback s' !! k = query_callback s !! k) /\
  exists evs, trace s' = (trace s ++ evs)%list /\
              Forall (fun ev => is_invoke ev = false) evs.

(** A computation all of whose runs are such steps. *)
Definition frame (K : Z -> Prop) {A} (m : Py A) : Prop :=
  forall s, kept K s (snd (m s)).

(** What is known of the values a computation returns. *)
Definition post {A} (m : Py A) (Q : A -> Prop) : Prop :=
  forall s a s', m s = (Return a, s') -> Q a.

(** The trace of [s] continues the history [t0]. *)
Definition since (t0 : list event) (s : Session) : Prop :=
  exists h, trace s = (t0 ++ h)%list.

(** [frame] and [post] for the runs that start after the history [t0]. *)
Definition frame_since (t0 : list event) (K : Z -> Prop) {A} (m : Py A) : Prop :=
  forall s, since t0 s -> kept K s (snd (m s)).

Definition post_since (t0 : list event) {A} (m : Py A) (Q : A -> Prop) : Prop :=
  forall s a s', since t0 s -> m s = (Return a, s') -> Q a.

(** A bot with localisation whose default language has a greeting. *)
Definition greeting_bot : Bot :=
  mkBot ∅ [] [] no_answer (<["default" := <["greeting" := "Hello {}!"]> ∅]> ∅)
        (mkConfig false None true false false false None false).

(** ** The configuration file and the remaining entry points *)

(** A loaded TOML document: strings, integers, booleans, arrays and
    tables. *)
Inductive toml :=
| TStr (s : string)
| TInt (z : Z)
| TBool (b : bool)
| TArray (l : list toml)
| TTable (t : gmap string toml).

(** [_config_value] with the given keys and default, on the configuration
    [step]:
    a key missing from a table gives the default; indexing anything but
    a table with a key raises a [TypeError], which the function does not
    catch. *)
Fixpoint _config_value (step : toml) (keys : list string) (default : option toml)
  : exn + option toml :=
  match keys with
  | [] => inr (Some step)
  | key :: rest =>
      match step with
      | TTable t =>
          match t !! key with
          | Some v => _config_value v rest default
          | None => inr default
          end
      | _ => inl (builtin_exn TypeError "indices must be integers or the object is not subscriptable")
      end
  end.

(** The truth value of what a lookup returned. *)
Definition truthy (v : option toml) : bool :=
  match v with
  | None => false
  | Some (TBool b) => b
  | Some (TInt z) => negb (z =? 0)%Z
  | Some (TStr s) => negb (String.eqb s "")
  | Some (TArray l) => negb (Nat.eqb (List.length l) 0)
  | Some (TTable t) => negb (Nat.eqb (size t) 0)
  end.

(** [Marvin.default_answer(func)]. *)
Definition set_default_answer (func : handler) (b : Bot) : Bot :=
  mkBot (simple_routes b) (parse_routes b) (regex_routes b) func (language b) (config b).

(** An inbound chat message as [on_chat_message] sees it: it may have a
    text, and it may have a sticker, which may name an emoji. *)
Record ChatMessage := mkChatMessage {
  chat_message_id : Z;
  chat_text : option string;
  chat_sticker : option (option string) }.

(** [_Session.handle_sticker].  The extraction of the emoji is followed
    by the default sticker handler in every case, and the coroutine
    [self.prepare_answer(answer)] is created without being awaited, so
    its body does not run.  The handler is given by what awaiting it
    does; the debug record of the extraction is below the levels the
    trace keeps. *)
Definition handle_sticker (W : World) (b : Bot) (cfg : toml)
    (default_sticker_answer : outcome pyval) (fuel : nat) (m : ChatMessage)
  : Py unit :=
  let* extract :=
    of_sum (_config_value cfg ["bot"; "extract_emojis"] (Some (TBool false))) in
  (if truthy extract then
     match chat_sticker m with
     | Some (Some emoji) =>
         handle_text_message W b fuel (mkMessage (chat_message_id m) emoji)
     | Some None => raise (builtin_exn KeyError "emoji")
     | None => raise (builtin_exn KeyError "sticker")
     end
   else ret tt) ;;;
  let* answer := call default_sticker_answer in
  ret tt.

(** [_Session.on_chat_message]: a text goes to the text pipeline, a
    sticker to the sticker handler, anything else is ignored. *)
Definition on_chat_message (W : World) (b : Bot) (cfg : toml)
    (default_sticker_answer : outcome pyval) (fuel : nat) (m : ChatMessage)
  : Py unit :=
  match chat_text m with
  | Some text => handle_text_message W b fuel (mkMessage (chat_message_id m) text)
  | None =>
      match chat_sticker m with
      | Some _ => handle_sticker W b cfg default_sticker_answer fuel m
      | None => ret tt
      end
  end.

(** The keys of the dictionary [_get_config] returns, in its order. *)
Definition config_keys : list string :=
  ["parse_mode"; "reply_to_message_id"; "disable_web_page_preview";
   "disable_notification"; "reply_markup"; "caption"].

(** The keys that reach the transport with each kind of message. *)
Definition sent_keys (k : Media) : list string :=
  match k with
  | TEXT => ["parse_mode"; "reply_to_message_id"; "disable_web_page_preview";
             "disable_notification"; "reply_markup"]
  | STICKER => ["reply_to_message_id"; "disable_notification"; "reply_markup"]
  | _ => ["parse_mode"; "reply_to_message_id"; "disable_notification";
          "reply_markup"; "caption"]
  end.

(** A computation that leaves the session as it found it whenever it
    returns. *)
Definition silent {A} (m : Py A) : Prop :=
  forall s a s', m s = (Return a, s') -> s' = s.

(** The events a step appends all satisfy [P]. *)
Definition appends (P : event -> Prop) (s s' : Session) : Prop :=
  exists evs, trace s' = (trace s ++ evs)%list /\ Forall P evs.

(** Every run appends only events that satisfy [P], raises only
    exceptions that satisfy [Q], and exhausts its budget only if [D]. *)
Definition run_spec (P : event -> Prop) (Q : exn -> Prop) (D : Prop) {A}
    (m : Py A) : Prop :=
  forall s, appends P s (snd (m s)) /\
            (forall e, fst (m s) = Raise e -> Q e) /\
            (fst (m s) = Diverge -> D).

(** The keys each send operation of [_send] lets through. *)
Definition send_filter (k : Media) : list string :=
  match k with
  | TEXT => ["parse_mode"; "disable_web_page_preview"; "disable_notification";
             "reply_to_message_id"; "reply_markup"]
  | STICKER => ["disable_notification"; "reply_to_message_id"; "reply_markup"]
  | VOICE => ["caption"; "parse_mode"; "duration"; "disable_notification";
              "reply_to_message_id"; "reply_markup"]
  | AUDIO => ["caption"; "parse_mode"; "duration"; "performer"; "title";
              "disable_notification"; "reply_to_message_id"; "reply_markup"]
  | PHOTO => ["caption"; "parse_mode"; "disable_notification";
              "reply_to_message_id"; "reply_markup"]
  | VIDEO => ["duration"; "width"; "height"; "caption"; "parse_mode";
              "supports_streaming"; "disable_notification";
              "reply_to_message_id"; "reply_markup"]
  | DOCUMENT => ["caption"; "parse_mode"; "disable_notification";
                 "reply_to_message_id"; "reply_markup"]
  end.

(** The exceptions whose message the [except] clauses of
    [prepare_answer] can read. *)
Definition readable (e : exn) : Prop :=
  match exn_cls e with
  | FileNotFoundError => True
  | TelegramError => is_Some (exn_args e !! 0%nat)
  | _ => is_Some (exn_args e !! (if is_OSError e then 1 else 0)%nat)
  end.

(** A send call whose keyword arguments are those of its kind. *)
Definition send_keys_ok (ev : event) : Prop :=
  match ev with
  | EvSend rq _ => List.map fst (rq_kwargs rq) = sent_keys (rq_kind rq)
  | _ => True
  end.

(** A world whose transport rejects every send. *)
Definition gateway_error : exn :=
  mkExn TelegramError ["Bad Gateway"; "502"] "" (mkFrame "telepot.py" "_parse" "" "").

Definition offline_world : World :=
  mkWorld prefix_match tiny_regex py_format (fun _ => true)
          (fun _ _ => inl gateway_error)
          (fun _ _ => None)
          (fun _ _ _ _ _ => None).

(** A configuration file that switches the extraction of emojis off. *)
Definition sticker_config : toml :=
  TTable (<["bot" := TTable (<["extract_emojis" := TBool false]> ∅)]> ∅).

(** The request that sends a plain text without buttons and without a
    reply target. *)
Definition text_request (b : Bot) (text : string) : request :=
  mkRequest TEXT (Some text)
    [("parse_mode", KStr (markup (config b)));
     ("reply_to_message_id", KInt None);
     ("disable_web_page_preview", KBool (disable_web_preview (config b)));
     ("disable_notification", KBool (disable_notification (config b)));
     ("reply_markup", KMarkup None)].

(** The calls of send operations in a trace, accepted or not. *)
Definition send_calls (tr : list event) : nat :=
  List.length (List.filter is_send_call tr).

(** * Properties *)

(** ** Routing *)

Lemma match_getitem_first m d text :
  match_getitem m d text =
  match first_match m d text with
  | Some r => inr r
  | None => inl (builtin_exn KeyError text)
  end.
Proof.
  unfold first_match. induction d as [|[p f] d IH]; simpl; [done|].
  destruct (m p text) as [named|]; simpl; [done|]. exact IH.
Qed.

Lemma match_contains_first m d text :
  match_contains m d text = bool_decide (is_Some (first_match m d text)).
Proof.
  unfold first_match, match_contains.
  induction d as [|[p f] d IH]; simpl.
  - done.
  - destruct (m p text) as [named|]; simpl.
    + done.
    + exact IH.
Qed.

Lemma first_match_is_Some m d text :
  is_Some (first_match m d text) <->
  exists p, p ∈ d.*1 /\ is_Some (m p text).
Proof.
  unfold first_match. induction d as [|[p f] d IH]; simpl.
  - split; [by intros [? ?]|]. intros (p & Hp & _). by apply elem_of_nil in Hp.
  - destruct (m p text) as [named|] eqn:Hm; simpl.
    + split; [|eauto]. intros _. exists p. split; [left|by rewrite Hm].
    + rewrite IH. split.
      * intros (q & Hq & Hs). exists q. split; [by right|done].
      * intros (q & Hq & Hs). apply elem_of_cons in Hq as [->|Hq].
        -- rewrite Hm in Hs. by destruct Hs.
        -- eauto.
Qed.

Lemma dict_setitem_keys {V} (k : string) (v : V) d p :
  p ∈ (dict_setitem k v d).*1 <-> p = k \/ p ∈ d.*1.
Proof.
  induction d as [|[k' v'] d IH]; simpl.
  - rewrite list_elem_of_singleton. split; [auto|].
    intros [->|H]; [done|]. by apply elem_of_nil in H.
  - destruct (String.eqb k k') eqn:E; simpl.
    + apply String.eqb_eq in E as <-. rewrite !elem_of_cons. tauto.
    + rewrite !elem_of_cons, IH. tauto.
Qed.

Lemma answer_parse_keys message mode func b p :
  p ∈ (parse_routes (answer message mode func b)).*1 <->
  p ∈ (parse_routes b).*1 \/ (p = message /\ mode = PARSE).
Proof.
  unfold answer. destruct mode; simpl; rewrite ?dict_setitem_keys;
    intuition congruence.
Qed.

Lemma answer_regex_keys message mode func b p :
  p ∈ (regex_routes (answer message mode func b)).*1 <->
  p ∈ (regex_routes b).*1 \/ (p = message /\ mode = REGEX).
Proof.
  unfold answer. destruct mode; simpl; rewrite ?dict_setitem_keys;
    intuition congruence.
Qed.

Lemma answer_simple_keys message mode func b p :
  is_Some (simple_routes (answer message mode func b) !! p) <->
  is_Some (simple_routes b !! p) \/ (p = message /\ mode <> PARSE).
Proof.
  unfold answer. destruct mode; simpl; rewrite ?lookup_insert_is_Some;
    destruct (decide (message = p)); intuition congruence.
Qed.

Lemma register_all_parse_keys regs b p :
  p ∈ (parse_routes (register_all regs b)).*1 <->
  p ∈ (parse_routes b).*1 \/ exists f, (p, PARSE, f) ∈ regs.
Proof.
  revert b. induction regs as [|[[q m] f] regs IH]; intros b; simpl.
  - split; [auto|]. intros [H|[f H]]; [done|]. by apply elem_of_nil in H.
  - rewrite IH, answer_parse_keys. split.
    + intros [[H|[-> ->]]|[g H]]; [by left| |].
      * right. exists f. left.
      * right. exists g. by right.
    + intros [H|[g H]]; [by left; left|].
      apply elem_of_cons in H as [H|H].
      * inversion H; subst. left. by right.
      * right. by exists g.
Qed.

Lemma register_all_regex_keys regs b p :
  p ∈ (regex_routes (register_all regs b)).*1 <->
  p ∈ (regex_routes b).*1 \/ exists f, (p, REGEX, f) ∈ regs.
Proof.
  revert b. induction regs as [|[[q m] f] regs IH]; intros b; simpl.
  - split; [auto|]. intros [H|[f H]]; [done|]. by apply elem_of_nil in H.
  - rewrite IH, answer_regex_keys. split.
    + intros [[H|[-> ->]]|[g H]]; [by left| |].
      * right. exists f. left.
      * right. exists g. by right.
    + intros [H|[g H]]; [by left; left|].
      apply elem_of_cons in H as [H|H].
      * inversion H; subst. left. by right.
      * right. by exists g.
Qed.

Lemma register_all_simple_keys regs b p :
  is_Some (simple_routes (register_all regs b) !! p) <->
  is_Some (simple_routes b !! p) \/
  exists m f, (p, m, f) ∈ regs /\ m <> PARSE.
Proof.
  revert b. induction regs as [|[[q m] f] regs IH]; intros b; simpl.
  - split; [auto|]. intros [H|(m & f & H & _)]; [done|]. by apply elem_of_nil in H.
  - rewrite IH, answer_simple_keys. split.
    + intros [[H|[-> Hm]]|(m' & g & H & Hm)]; [by left| |].
      * right. exists m, f. split; [left|done].
      * right. exists m', g. split; [by right|done].
    + intros [H|(m' & g & H & Hm)]; [by left; left|].
      apply elem_of_cons in H as [H|H].
      * inversion H; subst. left. by right.
      * right. by exists m', g.
Qed.

(** An equivalence between an inhabited and an empty option is absurd. *)
Ltac iff_absurd H :=
  exfalso; destruct H as [H1 H2];
  first [ destruct H1 as [? ?]; [by eexists|done]
        | destruct H2 as [? ?]; [by eexists|done] ].

(** The tier that answers is decided by three facts about the tables. *)
Lemma resolution_tier_decided W b1 b2 text :
  (is_Some (simple_routes b1 !! text) <-> is_Some (simple_routes b2 !! text)) ->
  (is_Some (first_match (parse_match W) (parse_routes b1) text) <->
   is_Some (first_match (parse_match W) (parse_routes b2) text)) ->
  (is_Some (first_match (regex_match W) (regex_routes b1) text) <->
   is_Some (first_match (regex_match W) (regex_routes b2) text)) ->
  fst (resolution_tiered W b1 text) = fst (resolution_tiered W b2 text).
Proof.
  unfold resolution_tiered. intros Hs Hp Hr.
  destruct (simple_routes b1 !! text), (simple_routes b2 !! text);
    [done|iff_absurd Hs|iff_absurd Hs|].
  destruct (first_match (parse_match W) (parse_routes b1) text),
           (first_match (parse_match W) (parse_routes b2) text);
    [done|iff_absurd Hp|iff_absurd Hp|].
  destruct (first_match (regex_match W) (regex_routes b1) text),
           (first_match (regex_match W) (regex_routes b2) text);
    [done|iff_absurd Hr|iff_absurd Hr|done].
Qed.

(** The resolution of the source is the tiered resolution, and it
    neither fails nor touches the session. *)
Lemma resolve_route_tiered W b text s :
  resolve_route W b text s = (Return (snd (resolution_tiered W b text)), s).
Proof.
  unfold resolve_route, resolution_tiered.
  destruct (simple_routes b !! text); [done|].
  rewrite !match_contains_first, !match_getitem_first.
  destruct (first_match (parse_match W) (parse_routes b) text) as [[f c]|].
  { rewrite bool_decide_eq_true_2 by eauto. done. }
  rewrite bool_decide_eq_false_2 by (by intros [? ?]).
  destruct (first_match (regex_match W) (regex_routes b) text) as [[f c]|].
  { rewrite bool_decide_eq_true_2 by eauto. done. }
  rewrite bool_decide_eq_false_2 by (by intros [? ?]). done.
Qed.

(** C1: resolution answers from the exact table first, then from the
    parse table, then from the regex table, with the handler and the
    named captures of the first match, and with the default handler when
    no table matches; the tier that answers does not depend on the order
    in which the routes were registered. *)
Theorem route_precedence (W : World) (b : Bot) (text : string) :
  (forall s, resolve_route W b text s
             = (Return (snd (resolution_tiered W b text)), s)) /\
  (forall regs1 regs2, regs1 ≡ₚ regs2 ->
     fst (resolution_tiered W (register_all regs1 b) text)
     = fst (resolution_tiered W (register_all regs2 b) text)).
Proof.
  split.
  - intros s. apply resolve_route_tiered.
  - intros regs1 regs2 Hperm. apply resolution_tier_decided.
    + rewrite !register_all_simple_keys.
      split; (intros [H|(m & f & H & Hm)]; [by left|right; exists m, f; split; [|done]]).
      * by rewrite <- Hperm.
      * by rewrite Hperm.
    + rewrite !first_match_is_Some.
      split; intros (p & Hp & Hs); exists p; (split; [|done]);
        apply register_all_parse_keys; apply register_all_parse_keys in Hp;
        (destruct Hp as [Hp|[f Hp]]; [by left|right; exists f]).
      * by rewrite <- Hperm.
      * by rewrite Hperm.
    + rewrite !first_match_is_Some.
      split; intros (p & Hp & Hs); exists p; (split; [|done]);
        apply register_all_regex_keys; apply register_all_regex_keys in Hp;
        (destruct Hp as [Hp|[f Hp]]; [by left|right; exists f]).
      * by rewrite <- Hperm.
      * by rewrite Hperm.
Qed.

Lemma route_precedence_witness :
  fst (resolution_tiered demo_world
         (register_all demo_regs (empty_bot demo_config)) "hi")
  = fst (resolution_tiered demo_world
           (register_all (rev demo_regs) (empty_bot demo_config)) "hi").
Proof.
  apply (proj2 (route_precedence demo_world (empty_bot demo_config) "hi")).
  apply Permutation_rev.
Defined.

(** With the three demo routes all matching the text "hi", the exact
    route answers, in both registration orders. *)
Example route_exact_wins :
  fst (resolution_tiered demo_world
         (register_all demo_regs (empty_bot demo_config)) "hi") = ExactTier /\
  fst (resolution_tiered demo_world
         (register_all (rev demo_regs) (empty_bot demo_config)) "hi") = ExactTier /\
  fst (resolution_tiered demo_world
         (register_all demo_regs (empty_bot demo_config)) "hello") = ParseTier /\
  fst (resolution_tiered demo_world
         (register_all demo_regs (empty_bot demo_config)) "bye") = RegexTier.
Proof. vm_compute. done. Qed.

(** ** Registration *)

Lemma answer_default_only message func b :
  simple_routes (answer message DEFAULT func b) = <[message := func]> (simple_routes b) /\
  parse_routes (answer message DEFAULT func b) = parse_routes b /\
  regex_routes (answer message DEFAULT func b) = regex_routes b.
Proof. done. Qed.

Lemma answer_parse_only message func b :
  simple_routes (answer message PARSE func b) = simple_routes b /\
  parse_routes (answer message PARSE func b)
    = dict_setitem message func (parse_routes b) /\
  regex_routes (answer message PARSE func b) = regex_routes b.
Proof. done. Qed.

(** Registering an exact pattern again replaces its handler: the table
    is the one a single registration of the new handler gives. *)
Lemma answer_default_overwrite message f g b :
  simple_routes (answer message DEFAULT g (answer message DEFAULT f b))
  = simple_routes (answer message DEFAULT g b) /\
  simple_routes (answer message DEFAULT g (answer message DEFAULT f b)) !! message
  = Some g.
Proof.
  simpl. split; [apply insert_insert_eq|apply lookup_insert_eq].
Qed.

(** C6: a registration in regex mode stores the binding in the regex
    table and, because the test for the regex mode is not chained with
    the one for the parse mode, in the exact table as well; the text
    equal to the pattern is then answered by the exact tier. *)
Theorem answer_regex_also_exact (message : string) (func : handler) (b : Bot) :
  regex_routes (answer message REGEX func b)
    = dict_setitem message func (regex_routes b) /\
  simple_routes (answer message REGEX func b) !! message = Some func /\
  forall W, resolution_tiered W (answer message REGEX func b) message
            = (ExactTier, (func, ∅)).
Proof.
  split; [done|]. split; [apply lookup_insert_eq|].
  intros W. unfold resolution_tiered. simpl. by rewrite lookup_insert_eq.
Qed.

(** ** Normalisation of what a handler returns *)

Lemma prepare_answer_unfold W b n answer log :
  prepare_answer W b (S n) answer log
  = guarded W b n log (prepare_body W b answer log).
Proof. done. Qed.

(** The messages received by the user are counted on the trace. *)
Lemma outbound_app tr1 tr2 : outbound (tr1 ++ tr2) = (outbound tr1 + outbound tr2)%nat.
Proof. unfold outbound. by rewrite List.filter_app, length_app. Qed.

(** What [prepare_answer] does with a value that has a first element to
    look at: [None] sends nothing; a bare value that is neither an Answer
    nor a sequence is sent as the single Answer with its text as payload
    and no format arguments; a list or tuple whose first element is not
    an Answer is sent as the single Answer with the text of the first
    element as payload and the remaining elements as format arguments; a
    list or tuple that starts with an Answer, and a generator, are sent
    as they are, element by element. *)
Lemma prepare_answer_normalization (W : World) (b : Bot) (n : nat)
    (log : string) (s : Session) :
  (exists s', prepare_answer W b (S n) VNone log s = (Return tt, s') /\
     outbound (trace s') = outbound (trace s) /\
     List.filter is_send_call (trace s') = List.filter is_send_call (trace s)) /\
  (forall v, is_complex v = false -> v <> VNone ->
     prepare_answer W b (S n) v log s
     = guarded W b n log (send_all W b [VAnswer (Answer_new (py_str v) [])]) s) /\
  (forall x rest, is_Answer x = false ->
     prepare_answer W b (S n) (VList (x :: rest)) log s
     = guarded W b n log (send_all W b [VAnswer (Answer_new (py_str x) rest)]) s /\
     prepare_answer W b (S n) (VTuple (x :: rest)) log s
     = guarded W b n log (send_all W b [VAnswer (Answer_new (py_str x) rest)]) s) /\
  (forall a rest,
     prepare_answer W b (S n) (VList (VAnswer a :: rest)) log s
     = guarded W b n log (send_all W b (VAnswer a :: rest)) s /\
     prepare_answer W b (S n) (VTuple (VAnswer a :: rest)) log s
     = guarded W b n log (send_all W b (VAnswer a :: rest)) s /\
     prepare_answer W b (S n) (VAnswer a) log s
     = guarded W b n log (send_all W b [VAnswer a]) s) /\
  (forall l, prepare_answer W b (S n) (VGen l) log s
             = guarded W b n log (send_all W b l) s).
Proof.
  split; [|split; [|split; [|split]]].
  - eexists. split; [reflexivity|]. simpl.
    split; [by rewrite outbound_app, Nat.add_0_r|].
    by rewrite List.filter_app, app_nil_r.
  - intros v Hc Hn. rewrite prepare_answer_unfold. by destruct v.
  - intros x rest Hx. rewrite !prepare_answer_unfold. by destruct x.
  - intros a rest. by rewrite !prepare_answer_unfold.
  - intros l. by rewrite prepare_answer_unfold.
Qed.

Lemma prepare_answer_normalization_at_text :
  prepare_answer demo_world (empty_bot demo_config) 1 (VStr "hello") "" (session_of "de")
  = guarded demo_world (empty_bot demo_config) 0 ""
      (send_all demo_world (empty_bot demo_config) [VAnswer (Answer_new "hello" [])])
      (session_of "de") /\
  prepare_answer demo_world (empty_bot demo_config) 1
      (VList [VStr "greeting"; VStr "Ann"]) "" (session_of "de")
  = guarded demo_world (empty_bot demo_config) 0 ""
      (send_all demo_world (empty_bot demo_config)
         [VAnswer (Answer_new "greeting" [VStr "Ann"])])
      (session_of "de").
Proof.
  destruct (prepare_answer_normalization demo_world (empty_bot demo_config) 0 ""
              (session_of "de")) as (_ & Hbare & Hseq & _).
  split.
  - apply (Hbare (VStr "hello")); [reflexivity|discriminate].
  - apply (Hseq (VStr "greeting") [VStr "Ann"]). reflexivity.
Qed.

(** A bare string and a list are sent as one text message each. *)
Example prepare_answer_sends_one :
  trace (after (prepare_answer demo_world (empty_bot demo_config) 1 (VStr "hello") "")
               (session_of "de"))
  = [EvSend (mkRequest TEXT (Some "hello")
               [("parse_mode", KStr None); ("reply_to_message_id", KInt None);
                ("disable_web_page_preview", KBool false);
                ("disable_notification", KBool false);
                ("reply_markup", KMarkup None)]) (inr 100%Z)] /\
  outbound (trace (after (prepare_answer demo_world (empty_bot demo_config) 1
                            VNone "") (session_of "de"))) = 0%nat.
Proof. vm_compute. done. Qed.

(** C2: a handler that returns an empty list or an empty tuple has
    returned a sequence without an answer in it, for which nothing is to
    be sent.  [prepare_answer] looks at the first element all the same:
    the IndexError is logged as a warning like a failed send, and the
    configured error reply goes out to the user. *)
Theorem empty_sequence_gets_error_reply :
  (exists text,
     trace (after (handle_text_message demo_world
                     (failing_bot returns_empty_list (Some "Sorry")) 3
                     (mkMessage 1 "x")) (session_of "de"))
     = [EvLog WARNING text;
        EvSend (text_request (failing_bot returns_empty_list (Some "Sorry")) "Sorry")
               (inr 101%Z)]) /\
  (exists text,
     trace (after (handle_text_message demo_world
                     (failing_bot returns_empty_tuple (Some "Sorry")) 3
                     (mkMessage 1 "x")) (session_of "de"))
     = [EvLog WARNING text;
        EvSend (text_request (failing_bot returns_empty_tuple (Some "Sorry")) "Sorry")
               (inr 101%Z)]) /\
  outbound (trace (after (handle_text_message demo_world
                            (failing_bot returns_empty_list (Some "Sorry")) 3
                            (mkMessage 1 "x")) (session_of "de"))) = 1%nat /\
  outbound (trace (after (handle_text_message demo_world
                            (failing_bot returns_empty_tuple (Some "Sorry")) 3
                            (mkMessage 1 "x")) (session_of "de"))) = 1%nat.
Proof.
  split; [|split; [|split]]; try (by vm_compute); eexists; by vm_compute.
Qed.

(** ** Localisation *)

Lemma apply_language_unfold W b self s u code :
  ctx_user s = Some u -> language_code u = Some code ->
  _apply_language W b self s =
  match language_lookup b (lower (split_first "_" code)) (_msg self) with
  | Some answer => apply_formatting W self answer s
  | None =>
      match language_lookup b "default" (_msg self) with
      | Some answer => apply_formatting W self answer s
      | None =>
          if strict_mode (config b)
          then (log_ CRITICAL ("Language key " ++ dq ++ opt_str (_msg self)
                                 ++ dq ++ " not found!") ;;;
                raise (builtin_exn KeyError (opt_str (_msg self)))) s
          else (Return (_msg self), s)
      end
  end.
Proof.
  intros Hu Hc. unfold _apply_language, bind, get. rewrite Hu. simpl. rewrite Hc.
  simpl.
  destruct (language_lookup b _ (_msg self)); [done|].
  destruct (language_lookup b "default" (_msg self)); [done|].
  by destruct (strict_mode (config b)).
Qed.

(** C3 (amended): with localisation, the key is looked up under the
    requester's language code cut at its first underscore and
    lower-cased, and under [default] on a miss; the template found is
    what the formatting step receives. *)
Theorem apply_language_localized (W : World) (b : Bot) (self : Answer)
    (s : Session) (u : User) (code key tmpl : string) :
  ctx_user s = Some u -> language_code u = Some code -> _msg self = Some key ->
  localized b code key = Some tmpl ->
  _apply_language W b self s = apply_formatting W self tmpl s.
Proof.
  intros Hu Hc Hk Hl. rewrite (apply_language_unfold W b self s u code Hu Hc).
  unfold localized in Hl. unfold language_lookup. rewrite Hk.
  destruct (language b !! lower (split_first "_" code) ≫= _) as [t|].
  - by inversion Hl.
  - by rewrite Hl.
Qed.

Lemma apply_language_localized_witness :
  _apply_language demo_world (language_bot false None) (Answer_new "hi" [])
                  (session_of "de_DE")
  = (Return (Some "Hallo"), session_of "de_DE") /\
  _apply_language demo_world (language_bot false None) (Answer_new "hi" [])
                  (session_of "fr")
  = (Return (Some "Hi"), session_of "fr").
Proof.
  split.
  - exact (apply_language_localized demo_world (language_bot false None)
             (Answer_new "hi" []) (session_of "de_DE") (user_with "de_DE")
             "de_DE" "hi" "Hallo" eq_refl eq_refl eq_refl eq_refl).
  - exact (apply_language_localized demo_world (language_bot false None)
             (Answer_new "hi" []) (session_of "fr") (user_with "fr")
             "fr" "hi" "Hi" eq_refl eq_refl eq_refl eq_refl).
Defined.

(** The language code [de-DE] has no underscore: it is looked up as
    [de-de], misses, and the key resolves in the default language. *)
Lemma apply_language_hyphen_counterexample :
  fst (_apply_language demo_world (language_bot false None) (Answer_new "hi" [])
                       (session_of "de-DE")) = Return (Some "Hi") /\
  fst (_apply_language demo_world (language_bot false None) (Answer_new "hi" [])
                       (session_of "de-DE")) <> Return (Some "Hallo").
Proof. split; [by vm_compute|]. vm_compute. discriminate. Qed.

(** The lookup is insensitive to the case of the requester's code. *)
Example apply_language_upper_case :
  fst (_apply_language demo_world (language_bot false None) (Answer_new "hi" [])
                       (session_of "DE")) = Return (Some "Hallo").
Proof. by vm_compute. Qed.

(** In lenient mode a key absent from the language and from [default]
    is itself the text. *)
Lemma apply_language_lenient_miss W b self s u code key :
  ctx_user s = Some u -> language_code u = Some code -> _msg self = Some key ->
  localized b code key = None -> strict_mode (config b) = false ->
  _apply_language W b self s = (Return (Some key), s).
Proof.
  intros Hu Hc Hk Hl Hs. rewrite (apply_language_unfold W b self s u code Hu Hc).
  unfold localized in Hl. unfold language_lookup. rewrite Hk, Hs.
  destruct (language b !! lower (split_first "_" code) ≫= _) as [t|]; [done|].
  by rewrite Hl.
Qed.

(** In strict mode the miss is logged at level critical and raised. *)
Lemma apply_language_strict_miss W b self s u code key :
  ctx_user s = Some u -> language_code u = Some code -> _msg self = Some key ->
  localized b code key = None -> strict_mode (config b) = true ->
  _apply_language W b self s
  = (Raise (builtin_exn KeyError key),
     after (log_ CRITICAL ("Language key " ++ dq ++ key ++ dq ++ " not found!")) s).
Proof.
  intros Hu Hc Hk Hl Hs. rewrite (apply_language_unfold W b self s u code Hu Hc).
  unfold localized in Hl. unfold language_lookup. rewrite Hk, Hs.
  destruct (language b !! lower (split_first "_" code) ≫= _) as [t|]; [done|].
  by rewrite Hl.
Qed.

(** ** Formatting *)

(** C4 (amended): with format arguments, the substitution is applied to
    the localised template when localisation is enabled and the key is
    found; with localisation disabled the text is the literal payload,
    without substitution.  A list of a key and its arguments is handled
    as the Answer built from them. *)
Theorem retrieve_message_formatting (W : World) (b : Bot) (self : Answer)
    (s : Session) :
  format_content self <> [] ->
  (language_feature (config b) = false ->
   retrieve_message W b self s = (Return (_msg self), s)) /\
  (language_feature (config b) = true ->
   forall u code key tmpl,
     ctx_user s = Some u -> language_code u = Some code ->
     _msg self = Some key -> localized b code key = Some tmpl ->
     retrieve_message W b self s
     = (match str_format W tmpl (format_content self) with
        | inr t => Return (Some t)
        | inl e => Raise e
        end, s)) /\
  (forall n log key arguments,
     prepare_answer W b (S n) (VList (VStr key :: arguments)) log s
     = prepare_answer W b (S n) (VAnswer (Answer_new key arguments)) log s).
Proof.
  intros Hfc. split; [|split].
  - intros Hl. unfold retrieve_message. by rewrite Hl.
  - intros Hl u code key tmpl Hu Hc Hk Hloc. unfold retrieve_message. rewrite Hl.
    rewrite (apply_language_localized W b self s u code key tmpl Hu Hc Hk Hloc).
    unfold apply_formatting.
    destruct (format_content self) as [|x fc]; [done|].
    unfold bind, of_sum. by destruct (str_format W tmpl (x :: fc)).
  - done.
Qed.

Lemma retrieve_message_formatting_witness :
  retrieve_message demo_world (empty_bot demo_config)
                   (Answer_new "Hello {}" [VStr "Bob"]) (session_of "de")
  = (Return (Some "Hello {}"), session_of "de") /\
  retrieve_message demo_world greeting_bot
                   (Answer_new "greeting" [VStr "Bob"]) (session_of "de")
  = (Return (Some "Hello Bob!"), session_of "de").
Proof.
  split.
  - apply (retrieve_message_formatting demo_world (empty_bot demo_config)
             (Answer_new "Hello {}" [VStr "Bob"]) (session_of "de")).
    + discriminate.
    + reflexivity.
  - assert (Hfc : format_content (Answer_new "greeting" [VStr "Bob"]) <> [])
      by discriminate.
    exact (proj1 (proj2 (retrieve_message_formatting demo_world greeting_bot
                           (Answer_new "greeting" [VStr "Bob"]) (session_of "de") Hfc))
             eq_refl (user_with "de") "de" "greeting" "Hello {}!"
             eq_refl eq_refl eq_refl eq_refl).
Defined.

(** With localisation disabled the arguments of [Answer("Hello {}", "Bob")]
    are not substituted: the text sent is the payload as written. *)
Lemma msg_literal_counterexample :
  py_format "Hello {}" [VStr "Bob"] = inr "Hello Bob" /\
  List.map (fun o => match o with
                     | EvSend rq _ => rq_content rq
                     | _ => None
                     end)
    (trace (after (prepare_answer demo_world (empty_bot demo_config) 2
                     (VList [VStr "Hello {}"; VStr "Bob"]) "")
                  (session_of "de")))
  = [Some "Hello {}"] /\
  fst (retrieve_message demo_world (empty_bot demo_config)
         (Answer_new "Hello {}" [VStr "Bob"]) (session_of "de"))
  <> Return (Some "Hello Bob").
Proof. split; [by vm_compute|]. split; [by vm_compute|]. vm_compute. discriminate. Qed.

(** With localisation enabled the arguments are substituted. *)
Example msg_localized_formatted :
  List.map (fun o => match o with
                     | EvSend rq _ => rq_content rq
                     | _ => None
                     end)
    (trace (after (prepare_answer demo_world greeting_bot 2
                     (VList [VStr "greeting"; VStr "Bob"]) "")
                  (session_of "de")))
  = [Some "Hello Bob!"].
Proof. by vm_compute. Qed.

(** C5: in strict mode, a key that is neither in the requester's language
    nor in [default] is logged at level critical and raised by
    [_apply_language], and the generic [except] clause of
    [prepare_answer] catches it: the event ends normally with a warning
    in the log. *)
Theorem strict_miss_is_caught :
  handle_text_message demo_world (bye_bot true None) 2 (mkMessage 1 "x")
                      (session_of "de")
  = (Return tt,
     mkSession (user_with "de") ∅ None (Some (mkMessage 1 "x"))
               (Some (user_with "de"))
       [EvLog CRITICAL ("Language key " ++ dq ++ "bye" ++ dq ++ " not found!");
        EvLog WARNING
          ("Message by user: " ++ dq ++ "x" ++ dq ++ nl ++ tab ++
           "During the sending of the bot's answer occured an error" ++ nl ++
           tab ++ tab ++ "Error message: bye" ++ nl ++
           traceback_text (builtin_exn KeyError "bye") ++ tab ++
           "Nothing was returned to the user" ++ nl ++ tab ++
           "You may report this bug as it either should not have occured" ++
           "or should have been properly caught")]).
Proof. by vm_compute. Qed.

(** In lenient mode the same event sends the key itself. *)
Example lenient_miss_sends_key :
  List.map (fun o => match o with
                     | EvSend rq _ => rq_content rq
                     | _ => None
                     end)
    (trace (after (handle_text_message demo_world (bye_bot false None) 2
                     (mkMessage 1 "x")) (session_of "de")))
  = [Some "bye"; None].
Proof. by vm_compute. Qed.

(** In strict mode, whatever the world, the miss raised while a text is
    being sent is caught by [prepare_answer] when no error reply is
    configured. *)
Lemma prepare_answer_catches_strict_miss W b n key log s u code :
  language_feature (config b) = true -> strict_mode (config b) = true ->
  error_reply (config b) = None ->
  ctx_user s = Some u -> language_code u = Some code ->
  localized b code key = None ->
  exists w,
    prepare_answer W b (S n) (VStr key) log s
    = (Return tt,
       mkSession (user s) (query_callback s) (last_sent s) (ctx_message s)
                 (ctx_user s)
                 (trace s ++ [EvLog CRITICAL ("Language key " ++ dq ++ key ++ dq
                                              ++ " not found!");
                              EvLog WARNING w])).
Proof.
  intros Hl Hs He Hu Hc Hloc. eexists.
  rewrite prepare_answer_unfold.
  unfold guarded, try_except, bind at 1.
  unfold prepare_body, unify_answer, dispatch_answer, send_all; simpl.
  unfold bind at 1. unfold bind at 1. simpl. unfold bind at 1.
  unfold _send. unfold bind at 1. unfold msg. unfold bind at 1.
  unfold retrieve_message. rewrite Hl.
  rewrite (apply_language_strict_miss W b (Answer_new key []) s u code key
             Hu Hc eq_refl Hloc Hs).
  simpl. unfold prepare_except, handle_error. rewrite He. simpl.
  unfold bind, log_, emit, ret. simpl. rewrite <- app_assoc. simpl.
  destruct (String.eqb log ""); reflexivity.
Qed.

(** ** Media shorthand *)

Lemma split_once_app c a r :
  contains_char c a = false ->
  split_once c (a ++ String c r) = (a, r) /\
  contains_char c (a ++ String c r) = true.
Proof.
  induction a as [|d a IH]; simpl.
  - intros _. by rewrite Ascii.eqb_refl.
  - destruct (Ascii.eqb c d); [done|]. intros H.
    destruct (IH H) as [-> ->]. done.
Qed.

Lemma split_once_absent c a :
  contains_char c a = false -> split_once c a = (a, "").
Proof.
  induction a as [|d a IH]; simpl; [done|].
  destruct (Ascii.eqb c d); [done|]. intros H. by rewrite (IH H).
Qed.

(** The two tables of the source, the tuple of commands and the
    dictionary [media_commands], name the same kinds. *)
Lemma media_kinds_commands command kind :
  (command, kind) ∈ media_kinds ->
  is_media_command command = true /\ media_commands_get command = kind.
Proof.
  unfold media_kinds. rewrite !elem_of_cons, elem_of_nil.
  intros [H|[H|[H|[H|[H|[H|[]]]]]]]; inversion H; by vm_compute.
Qed.

Lemma is_media_command_kinds command :
  is_media_command command = true ->
  exists kind, (command, kind) ∈ media_kinds.
Proof.
  unfold is_media_command, media_kinds. simpl.
  rewrite !orb_true_iff, !String.eqb_eq.
  intros [->|[->|[->|[->|[->|[->|H]]]]]]; [| | | | | |done];
    eexists; rewrite !elem_of_cons; eauto 10.
Qed.

(** C7: with the media type unset, a resolved text [kind:rest] whose
    [kind] names a media kind sets that kind, splits [rest] at its first
    semicolon into the media reference and the caption (no semicolon: the
    whole of [rest] is the reference and the caption stays as it was) and
    clears the text; any other text is kept and the kind is [TEXT]. *)
Theorem msg_media_shorthand (W : World) (b : Bot) (self : Answer)
    (s s' : Session) (text : string) :
  media_type self = None ->
  retrieve_message W b self s = (Return (Some text), s') ->
  (forall command kind rest,
     text = command ++ ":" ++ rest -> contains_char ":" command = false ->
     (command, kind) ∈ media_kinds ->
     msg W b self s
     = (Return (None,
                mkAnswer None (format_content self) (choices self) (callback self)
                         (keyboard self) (Some kind)
                         (Some (split_first ";" rest))
                         (if contains_char ";" rest
                          then Some (snd (split_once ";" rest))
                          else caption self)
                         (delay self)), s')) /\
  ((contains_char ":" text = false \/
    is_media_command (split_first ":" text) = false) ->
   msg W b self s = (Return (Some text, set_media_type self (Some TEXT)), s')).
Proof.
  intros Hm Hr. unfold msg, bind. rewrite Hr, Hm. split.
  - intros command kind rest -> Hcmd Hk.
    destruct (media_kinds_commands command kind Hk) as [Hc Hg].
    unfold determine_media.
    change (":" ++ rest) with (String ":"%char rest).
    destruct (split_once_app ":" command rest Hcmd) as [-> ->].
    rewrite Hc, Hg. unfold split_first.
    destruct (contains_char ";" rest) eqn:E.
    + by destruct (split_once ";" rest).
    + by rewrite (split_once_absent ";" rest E).
  - intros H. unfold determine_media.
    destruct (contains_char ":" text) eqn:E.
    + destruct H as [H|H]; [done|]. unfold split_first in H.
      destruct (split_once ":" text) as [command payload]. simpl in H. rewrite H.
      unfold is_media_command in H. simpl in H.
      repeat match goal with
             | Hx : (_ || _) = false |- _ => apply orb_false_elim in Hx as [? ?]
             end.
      unfold media_commands_get.
      repeat match goal with
             | Hx : String.eqb _ _ = false |- _ => rewrite Hx; clear Hx
             end.
      done.
    + done.
Qed.

Lemma msg_media_shorthand_witness :
  msg demo_world (empty_bot demo_config) (Answer_new "sticker:abc123" [])
      (session_of "de")
  = (Return (None, mkAnswer None [] None None None (Some STICKER)
                            (Some "abc123") None 0), session_of "de") /\
  msg demo_world (empty_bot demo_config) (Answer_new "photo:abc123;a cat" [])
      (session_of "de")
  = (Return (None, mkAnswer None [] None None None (Some PHOTO)
                            (Some "abc123") (Some "a cat") 0), session_of "de").
Proof.
  split.
  - apply (proj1 (msg_media_shorthand demo_world (empty_bot demo_config)
                    (Answer_new "sticker:abc123" []) (session_of "de")
                    (session_of "de") "sticker:abc123" eq_refl eq_refl)
             "sticker" STICKER "abc123" eq_refl eq_refl).
    unfold media_kinds. repeat constructor.
  - apply (proj1 (msg_media_shorthand demo_world (empty_bot demo_config)
                    (Answer_new "photo:abc123;a cat" []) (session_of "de")
                    (session_of "de") "photo:abc123;a cat" eq_refl eq_refl)
             "photo" PHOTO "abc123;a cat" eq_refl eq_refl).
    unfold media_kinds. repeat constructor.
Defined.

(** A text with a colon that names no media kind stays a text. *)
Example msg_plain_colon :
  fst (msg demo_world (empty_bot demo_config) (Answer_new "note: hello" [])
           (session_of "de"))
  = Return (Some "note: hello",
            set_media_type (Answer_new "note: hello" []) (Some TEXT)).
Proof. by vm_compute. Qed.

(** ** Keyboards *)

Lemma pair_up_nil {A} : pair_up (@nil A) = [].
Proof. done. Qed.

Lemma pair_up_one {A} (x : A) : pair_up [x] = [[x]].
Proof. done. Qed.

Lemma pair_up_cons2 {A} (x y : A) (l : list A) :
  pair_up (x :: y :: l) = [x; y] :: pair_up l.
Proof.
  unfold pair_up. simpl List.length.
  replace (S (S (List.length l)) + 1)%nat with (List.length l + 1 + 1 * 2)%nat by lia.
  rewrite Nat.div_add by done.
  replace (((List.length l + 1) / 2 + 1)%nat) with (S ((List.length l + 1) / 2)) by lia.
  rewrite <- cons_seq, <- seq_shift, List.map_cons, List.map_map.
  reflexivity.
Qed.

Example pair_up_three : pair_up ["A"; "B"; "C"] = [["A"; "B"]; ["C"]].
Proof. by rewrite pair_up_cons2, pair_up_one. Qed.

(** Flat choices are paired into rows of two, each cell both the label
    and the callback data, whether or not a keyboard is given too. *)
Lemma build_keyboard_flat_choices self x l s :
  choices self = Some (Flat (x :: l)) ->
  build_keyboard self s
  = (Return (Some (InlineKeyboardMarkup
                     (List.map (List.map (fun text => (text, text)))
                               (pair_up (x :: l)))),
             set_choices self (Some (Grid (pair_up (x :: l))))), s).
Proof. intros H. unfold build_keyboard. by rewrite H. Qed.

Example choices_before_keyboard :
  fst (build_keyboard (choices_answer (Flat ["A"; "B"; "C"])
                                      (Some (Grid [["X"]])))
                      (session_of "de"))
  = Return (Some (InlineKeyboardMarkup [[("A", "A"); ("B", "B")]; [("C", "C")]]),
            choices_answer (Grid [["A"; "B"]; ["C"]]) (Some (Grid [["X"]]))).
Proof. by vm_compute. Qed.

(** A keyboard given as rows is laid out as a one-time reply keyboard. *)
Example keyboard_rows :
  fst (build_keyboard (keyboard_answer (Grid [["A"; "B"]; ["C"]])) (session_of "de"))
  = Return (Some (ReplyKeyboardMarkup [["A"; "B"]; ["C"]] true),
            keyboard_answer (Grid [["A"; "B"]; ["C"]])).
Proof. by vm_compute. Qed.

(** A flat keyboard without choices: the pairing step takes the length
    of [self.choices], which is [None] on this branch. *)
Lemma build_keyboard_flat_keyboard self x l s :
  choices self = None -> keyboard self = Some (Flat (x :: l)) ->
  build_keyboard self s
  = (Raise (builtin_exn TypeError "object of type 'NoneType' has no len()"), s).
Proof. intros Hc Hk. unfold build_keyboard. by rewrite Hc, Hk. Qed.

(** C8: the flat keyboard ["A", "B", "C"] is not paired into rows: the
    construction of the send parameters raises a [TypeError], which
    [prepare_answer] logs, and nothing is sent. *)
Theorem get_config_flat_keyboard_raises :
  (forall b s,
     _get_config b (keyboard_answer (Flat ["A"; "B"; "C"])) s
     = (Raise (builtin_exn TypeError "object of type 'NoneType' has no len()"), s)) /\
  outbound (trace (after (prepare_answer demo_world (empty_bot demo_config) 2
                            (VAnswer (keyboard_answer (Flat ["A"; "B"; "C"]))) "")
                         (session_of "de"))) = 0%nat.
Proof. split; [done|by vm_compute]. Qed.

(** ** What a computation leaves alone *)

Section Frame.
Local Open Scope list_scope.
Variable W : World.
Variable b : Bot.
Variable K : Z -> Prop.

Lemma kept_refl s : kept K s s.
Proof. split; [done|]. exists []. by rewrite app_nil_r. Qed.

Lemma kept_trans s1 s2 s3 : kept K s1 s2 -> kept K s2 s3 -> kept K s1 s3.
Proof.
  intros [H1 (e1 & T1 & F1)] [H2 (e2 & T2 & F2)]. split.
  - intros k Hk. by rewrite H2, H1.
  - exists (e1 ++ e2). split; [by rewrite T2, T1, app_assoc|].
    by apply Forall_app.
Qed.

Lemma frame_ret {A} (a : A) : frame K (ret a).
Proof. intros s. apply kept_refl. Qed.

Lemma frame_raise {A} e : frame K (@raise A e).
Proof. intros s. apply kept_refl. Qed.

Lemma frame_diverge {A} : frame K (@diverge A).
Proof. intros s. apply kept_refl. Qed.

Lemma frame_get {A} (f : Session -> A) : frame K (get f).
Proof. intros s. apply kept_refl. Qed.

Lemma frame_of_sum {A} (r : exn + A) : frame K (of_sum r).
Proof. destruct r; [apply frame_raise|apply frame_ret]. Qed.

Lemma frame_call o : frame K (call o).
Proof. destruct o; [apply frame_ret|apply frame_raise]. Qed.

Lemma frame_bind {A B} (m : Py A) (k : A -> Py B) :
  frame K m -> (forall a, frame K (k a)) -> frame K (bind m k).
Proof.
  intros Hm Hk s. unfold bind. specialize (Hm s).
  destruct (m s) as [[a| |] s1]; [|done|done].
  simpl in Hm. eapply kept_trans; [exact Hm|apply Hk].
Qed.

Lemma frame_bind_post {A B} (m : Py A) (k : A -> Py B) (Q : A -> Prop) :
  frame K m -> post m Q -> (forall a, Q a -> frame K (k a)) -> frame K (bind m k).
Proof.
  intros Hm HQ Hk s. unfold bind. specialize (Hm s). specialize (HQ s).
  destruct (m s) as [[a| |] s1]; [|done|done].
  simpl in Hm. eapply kept_trans; [exact Hm|]. apply Hk. by eapply HQ.
Qed.

Lemma frame_try {A} (m : Py A) (h : exn -> Py A) :
  frame K m -> (forall e, frame K (h e)) -> frame K (try_except m h).
Proof.
  intros Hm Hh s. unfold try_except. specialize (Hm s).
  destruct (m s) as [[a|e|] s1]; [done| |done].
  simpl in Hm. eapply kept_trans; [exact Hm|apply Hh].
Qed.

Lemma frame_emit ev : is_invoke ev = false -> frame K (emit ev).
Proof.
  intros Hev s. split; [done|]. exists [ev]. split; [done|].
  by apply Forall_singleton.
Qed.

Lemma frame_log lvl text : frame K (log_ lvl text).
Proof. by apply frame_emit. Qed.

Lemma frame_set_last_sent a sent : frame K (set_last_sent a sent).
Proof. intros s. split; [done|]. exists []. by rewrite app_nil_r. Qed.

Lemma frame_set_context m u : frame K (set_context m u).
Proof. intros s. split; [done|]. exists []. by rewrite app_nil_r. Qed.

(** Registering a continuation under an unprotected id. *)
Lemma frame_register sent f :
  ~ K sent ->
  frame K (let* t := get query_callback in set_query_callback (<[sent := f]> t)).
Proof.
  intros HK s. split.
  - intros k Hk. simpl. apply lookup_insert_ne. by intros ->.
  - exists []. by rewrite app_nil_r.
Qed.

Lemma post_ret {A} (a : A) (Q : A -> Prop) : Q a -> post (ret a) Q.
Proof. intros H s a' s' E. by inversion E; subst. Qed.

Lemma post_bind {A B} (m : Py A) (k : A -> Py B) (Q : B -> Prop) :
  (forall a, post (k a) Q) -> post (bind m k) Q.
Proof.
  intros Hk s x s' E. unfold bind in E.
  destruct (m s) as [[a| |] s1]; [|done|done]. by eapply Hk.
Qed.

Lemma post_raise {A} e (Q : A -> Prop) : post (raise e) Q.
Proof. by intros s a s' E. Qed.

Lemma post_of_sum {A} (r : exn + A) (Q : A -> Prop) :
  (forall a, r = inr a -> Q a) -> post (of_sum r) Q.
Proof.
  intros H. destruct r as [e|a]; [apply post_raise|]. apply post_ret. by apply H.
Qed.

(** *** The Answer methods keep everything *)

Lemma frame_apply_formatting self answer : frame K (apply_formatting W self answer).
Proof.
  unfold apply_formatting. destruct (format_content self); [apply frame_ret|].
  apply frame_bind; [apply frame_of_sum|intros; apply frame_ret].
Qed.

Lemma frame_apply_language self : frame K (_apply_language W b self).
Proof.
  unfold _apply_language.
  apply frame_bind; [apply frame_get|intros u].
  apply frame_bind.
  { destruct (u ≫= language_code); [apply frame_ret|apply frame_raise]. }
  intros code.
  destruct (language_lookup b code (_msg self)); [apply frame_apply_formatting|].
  destruct (language_lookup b "default" (_msg self)); [apply frame_apply_formatting|].
  destruct (strict_mode (config b)); [|apply frame_ret].
  apply frame_bind; [apply frame_log|intros; apply frame_raise].
Qed.

Lemma frame_determine_media m self : frame K (determine_media m self).
Proof.
  unfold determine_media. destruct m as [text|]; [|apply frame_raise].
  destruct (contains_char ":" text); [|apply frame_ret].
  destruct (split_once ":" text) as [command payload].
  destruct (is_media_command command); apply frame_ret.
Qed.

Lemma frame_msg self : frame K (msg W b self).
Proof.
  unfold msg. apply frame_bind.
  - unfold retrieve_message.
    destruct (language_feature (config b)); [apply frame_apply_language|apply frame_ret].
  - intros m. destruct (media_type self); [apply frame_ret|apply frame_determine_media].
Qed.

Lemma frame_build_keyboard self : frame K (build_keyboard self).
Proof.
  unfold build_keyboard. destruct (choices self) as [ch|].
  - apply frame_bind; [apply frame_of_sum|intros flat].
    apply frame_bind; [|intros; apply frame_ret].
    destruct flat; [|apply frame_ret].
    apply frame_bind; [apply frame_of_sum|intros; apply frame_ret].
  - destruct (keyboard self) as [kb|]; [|apply frame_ret].
    apply frame_bind; [apply frame_of_sum|intros flat].
    apply frame_bind; [|intros; apply frame_ret].
    destruct flat; [apply frame_raise|apply frame_ret].
Qed.

Lemma frame_get_config self : frame K (_get_config b self).
Proof.
  unfold _get_config. apply frame_bind; [apply frame_build_keyboard|intros [kb self1]].
  apply frame_bind; [|intros; apply frame_ret].
  destruct (mark_as_answer (config b)); [|apply frame_ret].
  apply frame_bind; [apply frame_get|intros [m|]]; [apply frame_ret|apply frame_raise].
Qed.

Lemma frame_open_rb path : frame K (open_rb W path).
Proof.
  unfold open_rb. destruct path as [p|]; [|apply frame_raise].
  destruct (file_exists W p); [apply frame_ret|apply frame_raise].
Qed.

Lemma frame_transport_send rq : frame K (transport_send W rq).
Proof.
  unfold transport_send. apply frame_bind; [apply frame_get|intros h].
  apply frame_bind; [by apply frame_emit|intros; apply frame_of_sum].
Qed.

Lemma frame_answerCallbackQuery qid : frame K (answerCallbackQuery W qid).
Proof.
  unfold answerCallbackQuery. apply frame_bind; [apply frame_get|intros h].
  apply frame_bind; [by apply frame_emit|intros _].
  destruct (ack_reply W h qid); [apply frame_raise|apply frame_ret].
Qed.

Lemma frame_editMessageText chat mid text pm :
  frame K (editMessageText W chat mid text pm).
Proof.
  unfold editMessageText. apply frame_bind; [apply frame_get|intros h].
  apply frame_bind; [by apply frame_emit|intros _].
  destruct (edit_reply W h chat mid text pm); [apply frame_raise|apply frame_ret].
Qed.

Lemma frame_replace_query_text q : frame K (replace_query_text W b q).
Proof.
  unfold replace_query_text. apply frame_bind; [apply frame_get|intros u].
  apply frame_bind; [apply frame_get|intros [[a sent]|]]; [|apply frame_raise].
  apply frame_bind; [apply frame_msg|intros [m a1]].
  apply frame_bind; [apply frame_set_last_sent|intros _].
  apply frame_editMessageText.
Qed.

Lemma frame_send self : frame K (_send W b self).
Proof.
  unfold _send. apply frame_bind; [apply frame_msg|intros [m self1]].
  apply frame_bind; [apply frame_get_config|intros [kw self2]].
  apply frame_bind; [|intros; apply frame_ret].
  destruct (media_type self2) as [[]|];
    first [ apply frame_transport_send
          | apply frame_raise
          | apply frame_bind; [apply frame_open_rb|intros; apply frame_transport_send] ].
Qed.

Lemma frame_unify_answer answer : frame K (unify_answer answer).
Proof.
  unfold unify_answer. destruct (negb (is_complex answer)); [apply frame_ret|].
  destruct answer; try apply frame_ret;
    (destruct l as [|x rest]; [apply frame_raise|];
     destruct (negb (is_Answer x)); apply frame_ret).
Qed.

(** *** Sending registers continuations only under the ids that the
    transport gives out

    What follows is about the runs that start after a history [t0], and
    supposes that from then on the transport numbers no message with an
    id of [K]. *)

Variable t0 : list event.

Lemma since_refl s : since (trace s) s.
Proof. exists []. by rewrite app_nil_r. Qed.

Lemma since_kept s s' : since t0 s -> kept K s s' -> since t0 s'.
Proof.
  intros [h Hh] [_ (evs & T & _)]. exists (h ++ evs).
  by rewrite T, Hh, app_assoc.
Qed.

Lemma frame_since_of_frame {A} (m : Py A) : frame K m -> frame_since t0 K m.
Proof. intros Hm s _. apply Hm. Qed.

Lemma frame_since_bind {A B} (m : Py A) (k : A -> Py B) :
  frame_since t0 K m -> (forall a, frame_since t0 K (k a)) ->
  frame_since t0 K (bind m k).
Proof.
  intros Hm Hk s Hs. unfold bind. specialize (Hm s Hs).
  destruct (m s) as [[a| |] s1]; [|done|done].
  simpl in Hm. eapply kept_trans; [exact Hm|]. apply Hk. by eapply since_kept.
Qed.

Lemma frame_since_bind_post {A B} (m : Py A) (k : A -> Py B) (Q : A -> Prop) :
  frame K m -> post_since t0 m Q -> (forall a, Q a -> frame_since t0 K (k a)) ->
  frame_since t0 K (bind m k).
Proof.
  intros Hm HQ Hk s Hs. unfold bind. specialize (Hm s). specialize (HQ s).
  destruct (m s) as [[a| |] s1]; [|done|done].
  simpl in Hm. eapply kept_trans; [exact Hm|].
  apply Hk; [by eapply HQ|by eapply since_kept].
Qed.

Lemma frame_since_try {A} (m : Py A) (h : exn -> Py A) :
  frame_since t0 K m -> (forall e, frame_since t0 K (h e)) ->
  frame_since t0 K (try_except m h).
Proof.
  intros Hm Hh s Hs. unfold try_except. specialize (Hm s Hs).
  destruct (m s) as [[a|e|] s1]; [done| |done].
  simpl in Hm. eapply kept_trans; [exact Hm|]. apply Hh. by eapply since_kept.
Qed.

Lemma post_since_bind {A B} (m : Py A) (k : A -> Py B) (Q : B -> Prop) :
  frame K m -> (forall a, post_since t0 (k a) Q) -> post_since t0 (bind m k) Q.
Proof.
  intros Hm Hk s x s' Hs E. unfold bind in E. specialize (Hm s).
  destruct (m s) as [[a| |] s1]; [|done|done].
  eapply Hk; [|exact E]. by eapply since_kept.
Qed.

Lemma post_since_ret_bind {A B} (m : Py A) (f : A -> B) (Q : B -> Prop) :
  post_since t0 m (fun a => Q (f a)) -> post_since t0 (let* a := m in ret (f a)) Q.
Proof.
  intros Hm s x s' Hs E. unfold bind in E.
  destruct (m s) as [[a| |] s1] eqn:Hms; [|done|done].
  inversion E; subst. by eapply Hm.
Qed.

Lemma post_since_raise {A} e (Q : A -> Prop) : post_since t0 (raise e) Q.
Proof. by intros s a s' _ E. Qed.

Hypothesis fresh_ids :
  forall h rq m, send_reply W (t0 ++ h) rq = inr m -> ~ K m.

Lemma post_since_transport_send rq :
  post_since t0 (transport_send W rq) (fun m => ~ K m).
Proof.
  unfold transport_send. intros s a s' [h Hh] E. unfold bind, get, emit in E.
  simpl in E. destruct (send_reply W (trace s) rq) as [e|m] eqn:Hr; [done|].
  inversion E; subst. rewrite Hh in Hr. by eapply fresh_ids.
Qed.

Lemma post_since_send self :
  post_since t0 (_send W b self) (fun r => ~ K (fst r)).
Proof.
  unfold _send. apply post_since_bind; [apply frame_msg|intros [m self1]].
  apply post_since_bind; [apply frame_get_config|intros [kw self2]].
  apply (post_since_ret_bind _ (fun sent => (sent, self2))). simpl.
  destruct (media_type self2) as [[]|];
    first [ apply post_since_transport_send
          | apply post_since_raise
          | apply post_since_bind;
            [apply frame_open_rb|intros; apply post_since_transport_send] ].
Qed.

Lemma frame_since_handle_answer answers :
  frame_since t0 K (handle_answer W b answers).
Proof.
  induction answers as [|v rest IH]; [apply frame_since_of_frame, frame_ret|].
  destruct v; try (apply frame_since_of_frame, frame_raise). simpl.
  eapply frame_since_bind_post; [apply frame_send|apply post_since_send|].
  intros [sent a1] Hfresh. simpl in Hfresh.
  apply frame_since_bind; [apply frame_since_of_frame, frame_set_last_sent|intros _].
  apply frame_since_bind; [|intros _; exact IH].
  apply frame_since_of_frame.
  destruct (callback a1); [by apply frame_register|apply frame_ret].
Qed.

Lemma frame_since_prepare_body answer log :
  frame_since t0 K (prepare_body W b answer log).
Proof.
  unfold prepare_body.
  assert (Hgen : frame_since t0 K (let* a := unify_answer answer in
                                   dispatch_answer W b a ;;; ret true)).
  { apply frame_since_bind; [apply frame_since_of_frame, frame_unify_answer|].
    intros a.
    apply frame_since_bind; [|intros; apply frame_since_of_frame, frame_ret].
    unfold dispatch_answer.
    destruct a; try apply frame_since_of_frame, frame_ret;
      apply frame_since_handle_answer. }
  destruct answer; try exact Hgen.
  apply frame_since_of_frame.
  apply frame_bind; [apply frame_log|intros; apply frame_ret].
Qed.

Lemma frame_since_prepare_except he log e :
  frame_since t0 K he -> frame_since t0 K (prepare_except he log e).
Proof.
  intros Hhe. unfold prepare_except.
  assert (Hlog : forall text,
             frame_since t0 K (log_ WARNING text ;;; he ;;; ret false)).
  { intros text.
    apply frame_since_bind; [apply frame_since_of_frame, frame_log|intros _].
    apply frame_since_bind; [exact Hhe|intros; apply frame_since_of_frame, frame_ret]. }
  destruct (exn_cls e);
    try (apply frame_since_bind; [apply frame_since_of_frame, frame_of_sum|intros m]);
    apply Hlog.
Qed.

Lemma frame_since_prepare_answer fuel answer log :
  frame_since t0 K (prepare_answer W b fuel answer log).
Proof.
  revert answer log. induction fuel as [|n IH]; intros answer log;
    [apply frame_since_of_frame, frame_diverge|].
  simpl. apply frame_since_bind.
  - apply frame_since_try; [apply frame_since_prepare_body|intros e].
    apply frame_since_prepare_except.
    destruct (error_reply (config b));
      [apply IH|apply frame_since_of_frame, frame_ret].
  - intros completed. apply frame_since_of_frame.
    destruct (completed && negb (String.eqb log "")); [apply frame_log|apply frame_ret].
Qed.
End Frame.

(** ** Callback continuations *)

Section Callback.
Local Open Scope list_scope.
Variable W : World.
Variable b : Bot.
Variable fuel : nat.

Lemma invocations_app tr evs :
  invocations (tr ++ evs) = (invocations tr + invocations evs)%nat.
Proof. unfold invocations. by rewrite List.filter_app, length_app. Qed.

Lemma invocations_none evs :
  Forall (fun ev => is_invoke ev = false) evs -> invocations evs = 0%nat.
Proof.
  unfold invocations. induction 1 as [|ev evs Hev _ IH]; [done|].
  simpl. by rewrite Hev.
Qed.

Lemma kept_invocations K s s' :
  kept K s s' -> invocations (trace s') = invocations (trace s).
Proof.
  intros [_ (evs & -> & Hevs)].
  rewrite invocations_app, (invocations_none evs Hevs). lia.
Qed.

(** The acknowledgement is the first thing the tail does. *)
Lemma acknowledge_first t0 K q (k : Py unit) s :
  since t0 s -> frame_since t0 K k ->
  kept K s (snd ((answerCallbackQuery W (query_id q) ;;; k) s)) /\
  exists evs,
    trace (snd ((answerCallbackQuery W (query_id q) ;;; k) s))
    = trace s ++ EvAck (query_id q) (ack_reply W (trace s) (query_id q)) :: evs.
Proof.
  intros Hs Hk. split.
  { apply (frame_since_bind K t0); [|intros _; exact Hk|exact Hs].
    apply frame_since_of_frame, frame_answerCallbackQuery. }
  unfold answerCallbackQuery, bind, get, emit. simpl.
  destruct (ack_reply W (trace s) (query_id q)) as [e|]; simpl.
  - by exists [].
  - match goal with
    | |- context [k ?s0] =>
        assert (Hs0 : since t0 s0)
          by (destruct Hs as [h Hh]; eexists; simpl; by rewrite Hh, <- app_assoc);
        destruct (Hk s0 Hs0) as [_ (evs & -> & _)]
    end.
    exists evs. simpl. by rewrite <- app_assoc.
Qed.

Lemma frame_after_acknowledge_absent q :
  frame (fun _ => True)
        ((if replace_query (config b) then replace_query_text W b q else ret tt) ;;;
         ret tt).
Proof.
  apply frame_bind; [|intros; apply frame_ret].
  destruct (replace_query (config b)); [apply frame_replace_query_text|apply frame_ret].
Qed.

Lemma frame_after_acknowledge t0 K q answer :
  (forall h rq m, send_reply W (t0 ++ h) rq = inr m -> ~ K m) ->
  frame_since t0 K
        ((if replace_query (config b) then replace_query_text W b q else ret tt) ;;;
         match answer with
         | VNone => ret tt
         | _ => prepare_answer W b fuel answer ""
         end).
Proof.
  intros Hfresh. apply frame_since_bind.
  - apply frame_since_of_frame. destruct (replace_query (config b));
      [apply frame_replace_query_text|apply frame_ret].
  - intros _. destruct answer;
      first [apply frame_since_of_frame, frame_ret
            | by apply frame_since_prepare_answer].
Qed.

Lemma pop_and_invoke_unfold q s :
  pop_and_invoke q s =
  match query_callback s !! query_message_id q with
  | Some f =>
      (match f (query_data q) with
       | Returns v => Return v
       | Raises e => Raise e
       end,
       mkSession (user s) (delete (query_message_id q) (query_callback s))
                 (last_sent s) (ctx_message s) (ctx_user s)
                 (trace s ++ [EvInvoke (query_message_id q) (query_data q)]))
  | None =>
      (Return VNone,
       mkSession (user s) (delete (query_message_id q) (query_callback s))
                 (last_sent s) (ctx_message s) (ctx_user s) (trace s))
  end.
Proof.
  unfold pop_and_invoke, bind, get, set_query_callback, emit.
  destruct (query_callback s !! query_message_id q) as [f|]; [|done].
  by destruct (f (query_data q)).
Qed.

Lemma on_callback_query_absent s q :
  query_callback s !! query_message_id q = None ->
  on_callback_query W b fuel q s = acknowledge_and_answer W b fuel q VNone s.
Proof.
  intros Hnone. unfold on_callback_query, bind.
  rewrite pop_and_invoke_unfold, Hnone, (delete_id _ _ Hnone).
  by destruct s.
Qed.

Lemma on_callback_query_present s q f :
  query_callback s !! query_message_id q = Some f ->
  on_callback_query W b fuel q s =
  let s1 := mkSession (user s) (delete (query_message_id q) (query_callback s))
              (last_sent s) (ctx_message s) (ctx_user s)
              (trace s ++ [EvInvoke (query_message_id q) (query_data q)]) in
  match f (query_data q) with
  | Returns v => acknowledge_and_answer W b fuel q v s1
  | Raises e => (Raise e, s1)
  end.
Proof.
  intros Hsome. unfold on_callback_query, bind.
  rewrite pop_and_invoke_unfold, Hsome.
  by destruct (f (query_data q)).
Qed.

(** An event for a message without a continuation. *)
Lemma callback_absent s q :
  query_callback s !! query_message_id q = None ->
  query_callback (after (on_callback_query W b fuel q) s) = query_callback s /\
  invocations (trace (after (on_callback_query W b fuel q) s))
  = invocations (trace s) /\
  exists evs,
    trace (after (on_callback_query W b fuel q) s)
    = trace s ++ EvAck (query_id q) (ack_reply W (trace s) (query_id q)) :: evs.
Proof.
  intros Hnone. unfold after. rewrite (on_callback_query_absent s q Hnone).
  unfold acknowledge_and_answer.
  destruct (acknowledge_first (trace s) (fun _ => True) q _ s (since_refl s)
              (frame_since_of_frame _ _ _ (frame_after_acknowledge_absent q)))
    as [Hkept Hack].
  split; [|split].
  - apply map_eq. intros k. destruct Hkept as [Hk _]. by apply Hk.
  - exact (kept_invocations _ _ _ Hkept).
  - exact Hack.
Qed.

(** An event for a message with a continuation.  The entry stays away
    when the transport gives the id of that message to no message sent
    from now on. *)
Lemma callback_present s q f :
  query_callback s !! query_message_id q = Some f ->
  invocations (trace (after (on_callback_query W b fuel q) s))
  = S (invocations (trace s)) /\
  (forall v, f (query_data q) = Returns v ->
     exists evs,
       trace (after (on_callback_query W b fuel q) s)
       = trace s ++ EvInvoke (query_message_id q) (query_data q)
           :: EvAck (query_id q)
                (ack_reply W (trace s ++ [EvInvoke (query_message_id q) (query_data q)])
                           (query_id q))
           :: evs) /\
  (forall e, f (query_data q) = Raises e ->
     fst (on_callback_query W b fuel q s) = Raise e /\
     trace (after (on_callback_query W b fuel q) s)
     = trace s ++ [EvInvoke (query_message_id q) (query_data q)] /\
     query_callback (after (on_callback_query W b fuel q) s)
     = delete (query_message_id q) (query_callback s)) /\
  ((forall h rq m, send_reply W (trace s ++ h) rq = inr m -> m <> query_message_id q) ->
   query_callback (after (on_callback_query W b fuel q) s) !! query_message_id q
   = None).
Proof.
  intros Hsome. unfold after. rewrite (on_callback_query_present s q f Hsome).
  set (s1 := mkSession _ _ _ _ _ _). simpl.
  assert (Hs1 : since (trace s) s1) by (by eexists).
  destruct (f (query_data q)) as [v|e] eqn:Hf; simpl.
  - unfold acknowledge_and_answer.
    destruct (acknowledge_first (trace s) (fun _ => False) q _ s1 Hs1
                (frame_after_acknowledge _ _ q v (fun _ _ _ _ H => H)))
      as [Hkept Hack].
    split; [|split; [|split]].
    + rewrite (kept_invocations _ _ _ Hkept). subst s1. simpl.
      rewrite invocations_app. unfold invocations at 2. simpl. lia.
    + intros v' Hv'. destruct Hack as (evs & Hack). exists evs.
      rewrite Hack. subst s1. simpl. by rewrite <- app_assoc.
    + intros e. discriminate.
    + intros Hfresh.
      destruct (acknowledge_first (trace s) (fun k => k = query_message_id q) q _ s1 Hs1
                  (frame_after_acknowledge _ _ q v Hfresh)) as [[Hk _] _].
      rewrite (Hk _ eq_refl). apply lookup_delete_eq.
  - split; [|split; [|split]].
    + rewrite invocations_app. unfold invocations at 2. simpl. lia.
    + intros v. discriminate.
    + intros e' He'. by inversion He'.
    + intros _. apply lookup_delete_eq.
Qed.

(** Once the continuation is gone, events for the message call nothing. *)
Lemma run_callbacks_absent M qs s :
  Forall (fun q => query_message_id q = M) qs ->
  query_callback s !! M = None ->
  invocations (trace (run_callbacks W b fuel qs s)) = invocations (trace s) /\
  query_callback (run_callbacks W b fuel qs s) = query_callback s.
Proof.
  intros Hqs. revert s. induction Hqs as [|q qs Hq _ IH]; intros s Hnone; [done|].
  simpl. subst M.
  destruct (callback_absent s q Hnone) as (Ht & Hi & _).
  destruct (IH (after (on_callback_query W b fuel q) s)) as [IH1 IH2].
  { by rewrite Ht. }
  split; [by rewrite IH1, Hi|by rewrite IH2, Ht].
Qed.
End Callback.

(** The session that has sent a question: the transport of [demo_world]
    numbers it 100 and every later message higher. *)
Lemma asked_later_ids (f : continuation) h rq m :
  send_reply demo_world (trace (asked demo_world f) ++ h)%list rq = inr m ->
  (100 < m)%Z.
Proof.
  assert (Hlen : List.length (trace (asked demo_world f)) = 1%nat) by (by vm_compute).
  intros E.
  assert (m = (100 + Z.of_nat (List.length (trace (asked demo_world f) ++ h)))%Z)
    as -> by (symmetry; by injection E).
  rewrite length_app, Hlen. lia.
Qed.

(** C9 (amended): a callback-query event that finds no continuation
    under its message id leaves the table as it is, calls nothing and
    acknowledges the query.  An event that finds one under the id [M]
    calls it, once; when it returns the query is acknowledged next, and
    when it raises the exception leaves the event with the entry removed
    and the query not acknowledged.  Provided the transport gives the
    id [M] to no message sent after the event has begun, the entry is
    gone after the event, and over any run of events for [M] at most one
    continuation is called. *)
Theorem callback_consumed_once (W : World) (b : Bot) (fuel : nat) :
  (forall s q, query_callback s !! query_message_id q = None ->
     query_callback (after (on_callback_query W b fuel q) s) = query_callback s /\
     invocations (trace (after (on_callback_query W b fuel q) s))
     = invocations (trace s) /\
     exists evs,
       trace (after (on_callback_query W b fuel q) s)
       = (trace s ++ EvAck (query_id q) (ack_reply W (trace s) (query_id q)) :: evs)%list) /\
  (forall s q f,
     query_callback s !! query_message_id q = Some f ->
     invocations (trace (after (on_callback_query W b fuel q) s))
     = S (invocations (trace s)) /\
     (forall v, f (query_data q) = Returns v ->
        exists evs,
          trace (after (on_callback_query W b fuel q) s)
          = (trace s ++ EvInvoke (query_message_id q) (query_data q)
               :: EvAck (query_id q)
                    (ack_reply W (trace s ++ [EvInvoke (query_message_id q) (query_data q)])
                               (query_id q))
               :: evs)%list) /\
     (forall e, f (query_data q) = Raises e ->
        fst (on_callback_query W b fuel q s) = Raise e /\
        trace (after (on_callback_query W b fuel q) s)
        = (trace s ++ [EvInvoke (query_message_id q) (query_data q)])%list /\
        query_callback (after (on_callback_query W b fuel q) s)
        = delete (query_message_id q) (query_callback s)) /\
     ((forall h rq m, send_reply W (trace s ++ h)%list rq = inr m ->
                      m <> query_message_id q) ->
      query_callback (after (on_callback_query W b fuel q) s) !! query_message_id q
      = None)) /\
  (forall s M qs,
     (forall h rq m, send_reply W (trace s ++ h)%list rq = inr m -> m <> M) ->
     Forall (fun q => query_message_id q = M) qs ->
     (invocations (trace (run_callbacks W b fuel qs s))
      <= S (invocations (trace s)))%nat).
Proof.
  split; [|split].
  - intros s q Hnone. by apply callback_absent.
  - intros s q f Hsome. by apply callback_present.
  - intros s M qs Hfresh Hqs. destruct Hqs as [|q qs Hq Hqs]; [simpl; lia|].
    simpl. subst M.
    destruct (query_callback s !! query_message_id q) as [f|] eqn:Hl.
    + destruct (callback_present W b fuel s q f Hl) as (Hi & _ & _ & Hn).
      destruct (run_callbacks_absent W b fuel _ qs _ Hqs (Hn Hfresh)) as [-> _].
      rewrite Hi. lia.
    + destruct (callback_absent W b fuel s q Hl) as (Ht & Hi & _).
      destruct (run_callbacks_absent W b fuel _ qs
                  (after (on_callback_query W b fuel q) s) Hqs) as [-> _].
      * by rewrite Ht.
      * rewrite Hi. lia.
Qed.

Lemma callback_consumed_once_witness :
  query_callback (asked demo_world thanks) !! 100%Z = Some thanks /\
  (invocations (trace (run_callbacks demo_world (empty_bot demo_config) 3
                         [tap 100; tap 100] (asked demo_world thanks)))
   <= S (invocations (trace (asked demo_world thanks))))%nat.
Proof.
  split; [by vm_compute|].
  apply (proj2 (proj2 (callback_consumed_once demo_world (empty_bot demo_config) 3))
           (asked demo_world thanks) 100%Z).
  - intros h rq m E. apply asked_later_ids in E. lia.
  - repeat constructor.
Defined.

(** Two taps on the buttons of the question: one call, two
    acknowledgements, and the answer of the continuation is sent once. *)
Example callback_two_taps :
  List.map (fun ev => match ev with
                      | EvInvoke m d => "invoke"
                      | EvAck _ _ => "ack"
                      | EvSend rq _ => opt_str (rq_content rq)
                      | _ => "other"
                      end)
    (trace (run_callbacks demo_world (empty_bot demo_config) 3
              [tap 100; tap 100] (asked demo_world thanks)))
  = ["pick"; "invoke"; "ack"; "Thanks: A"; "ack"].
Proof. by vm_compute. Qed.

(** A continuation that raises is called and removed, and the exception
    leaves [on_callback_query] before the query is acknowledged.  And
    with a transport that gives the id of the question to the next
    message too, the answer of the continuation is registered under that
    id and the second tap calls a continuation again. *)
Lemma callback_query_counterexample :
  (query_callback (asked demo_world raising_continuation) !! 100%Z
   = Some raising_continuation /\
   trace (after (on_callback_query demo_world (empty_bot demo_config) 3 (tap 100))
                (asked demo_world raising_continuation))
   = (trace (asked demo_world raising_continuation) ++ [EvInvoke 100 "A"])%list /\
   List.filter is_ack
     (trace (after (on_callback_query demo_world (empty_bot demo_config) 3 (tap 100))
                   (asked demo_world raising_continuation))) = []) /\
  (query_callback (asked recycling_world ask_again) !! 5%Z = Some ask_again /\
   invocations (trace (asked recycling_world ask_again)) = 0%nat /\
   invocations (trace (run_callbacks recycling_world (empty_bot demo_config) 3
                         [tap 5; tap 5] (asked recycling_world ask_again))) = 2%nat).
Proof. repeat split; by vm_compute. Qed.

(** ** Failing handlers *)

Lemma handle_text_message_raises W b fuel m s e :
  fst (snd (resolution_tiered W b (message_text m)))
      (snd (snd (resolution_tiered W b (message_text m)))) = Raises e ->
  handle_text_message W b fuel m s =
  let s1 := after (set_context m (user s)) s in
  match exn_message e with
  | inl ie => (Raise ie, s1)
  | inr em =>
      (log_ WARNING
         (message_log (user s) (message_text m) ++
          nl ++ tab ++ "During the processing occured an error" ++ nl ++
          tab ++ tab ++ "Error message: " ++ em ++ nl ++
          traceback_text e ++ tab ++ "Nothing was returned to the user") ;;;
       handle_error W b fuel) s1
  end.
Proof.
  intros Hr. unfold handle_text_message, bind at 1, get. simpl.
  unfold bind at 1. simpl. unfold bind at 1. rewrite resolve_route_tiered.
  destruct (snd (resolution_tiered W b (message_text m))) as [func kw].
  simpl in Hr. unfold bind at 1, try_except, bind at 1. rewrite Hr. simpl.
  unfold bind at 1. unfold of_sum.
  destruct (exn_message e) as [ie|em]; simpl; [done|].
  unfold bind, log_, emit. simpl.
  destruct (handle_error W b fuel _) as [[[]| |] s2]; done.
Qed.

(** A handler whose exception carries the message the recovery reads is
    contained: a warning is logged, then [handle_error] runs. *)
Lemma handler_failure_silent W b fuel m s e em :
  fst (snd (resolution_tiered W b (message_text m)))
      (snd (snd (resolution_tiered W b (message_text m)))) = Raises e ->
  exn_message e = inr em -> error_reply (config b) = None ->
  fst (handle_text_message W b fuel m s) = Return tt /\
  outbound (trace (after (handle_text_message W b fuel m) s)) = outbound (trace s) /\
  exists text,
    trace (after (handle_text_message W b fuel m) s)
    = (trace s ++ [EvLog WARNING text])%list.
Proof.
  intros Hr He Hn. unfold after. rewrite (handle_text_message_raises W b fuel m s e Hr).
  simpl. rewrite He. unfold handle_error. rewrite Hn.
  unfold bind, log_, emit, ret. simpl. split; [done|]. split.
  - by rewrite outbound_app, Nat.add_0_r.
  - by eexists.
Qed.

(** An exception without the argument the recovery reads makes the
    recovery itself fail: nothing is logged, [handle_error] is not
    reached, and the [IndexError] leaves [handle_text_message]. *)
Lemma handler_failure_escapes W b fuel m s e ie :
  fst (snd (resolution_tiered W b (message_text m)))
      (snd (snd (resolution_tiered W b (message_text m)))) = Raises e ->
  exn_message e = inl ie ->
  handle_text_message W b fuel m s = (Raise ie, after (set_context m (user s)) s).
Proof.
  intros Hr He. rewrite (handle_text_message_raises W b fuel m s e Hr).
  simpl. by rewrite He.
Qed.

(** With an error reply configured, a handler that raises
    [ValueError("boom")] costs the user exactly one message. *)
Example handler_failure_replies_once :
  fst (handle_text_message demo_world (failing_bot fails_with_message (Some "Sorry"))
         3 (mkMessage 1 "x") (session_of "de")) = Return tt /\
  outbound (trace (after (handle_text_message demo_world
                            (failing_bot fails_with_message (Some "Sorry"))
                            3 (mkMessage 1 "x")) (session_of "de"))) = 1%nat /\
  List.map (fun ev => match ev with
                      | EvLog WARNING _ => "warning"
                      | EvSend rq _ => opt_str (rq_content rq)
                      | _ => "other"
                      end)
    (trace (after (handle_text_message demo_world
                     (failing_bot fails_with_message (Some "Sorry"))
                     3 (mkMessage 1 "x")) (session_of "de")))
  = ["warning"; "Sorry"].
Proof. repeat split; by vm_compute. Qed.

(** C10: a handler that raises an exception without arguments, as
    [raise ValueError()] does, is not contained: reading the message of
    the exception raises an [IndexError] inside the [except] clause, which
    leaves [handle_text_message]; nothing is logged and the configured
    error reply is not sent. *)
Theorem handler_failure_without_args_escapes :
  handle_text_message demo_world (failing_bot fails_without_args (Some "Sorry"))
                      3 (mkMessage 1 "x") (session_of "de")
  = (Raise (builtin_exn IndexError "tuple index out of range"),
     mkSession (user_with "de") ∅ None (Some (mkMessage 1 "x"))
               (Some (user_with "de")) []).
Proof. by vm_compute. Qed.

(** * Further properties of the code *)

(** ** Configuration lookups *)

(** Looking up a path in two steps: what the first keys reach is where
    the remaining keys are looked up. *)
Theorem config_value_app (c v : toml) (ks1 ks2 : list string) (d : option toml) :
  _config_value c ks1 None = inr (Some v) ->
  _config_value c (ks1 ++ ks2)%list d = _config_value v ks2 d.
Proof.
  revert c. induction ks1 as [|k ks1 IH]; intros c H; simpl in *.
  - by inversion H.
  - destruct c; try done. destruct (t !! k) as [w|]; [by apply IH|done].
Qed.

Lemma config_value_app_witness :
  _config_value
    (TTable (<["bot" := TTable (<["markup" := TStr "HTML"]> ∅)]> ∅))
    (["bot"] ++ ["markup"])%list None
  = inr (Some (TStr "HTML")).
Proof.
  exact (config_value_app
           (TTable (<["bot" := TTable (<["markup" := TStr "HTML"]> ∅)]> ∅))
           (TTable (<["markup" := TStr "HTML"]> ∅)) ["bot"] ["markup"] None eq_refl).
Defined.

(** A key that is missing from the table reached so far gives the
    default, however many keys follow; a key applied to a value that is
    not a table raises a [TypeError] instead. *)
Theorem config_value_missing_or_blocked (c v : toml) (ks ks' : list string)
    (k : string) (d : option toml) :
  _config_value c ks None = inr (Some v) ->
  match v with
  | TTable t =>
      t !! k = None -> _config_value c (ks ++ k :: ks')%list d = inr d
  | _ => exists e, _config_value c (ks ++ k :: ks')%list d = inl e /\
                   exn_cls e = TypeError
  end.
Proof.
  intros H. rewrite (config_value_app c v ks (k :: ks') d H).
  destruct v; simpl; try (by eexists).
  intros Hk. by rewrite Hk.
Qed.

Lemma config_value_missing_or_blocked_witness :
  _config_value (TTable (<["bot" := TTable (<["token" := TStr "t"]> ∅)]> ∅))
                (["bot"] ++ "error_reply" :: [])%list None = inr None /\
  exists e,
    _config_value (TTable (<["bot" := TTable (<["token" := TStr "t"]> ∅)]> ∅))
                  (["bot"; "token"] ++ "x" :: [])%list None = inl e /\
    exn_cls e = TypeError.
Proof.
  split.
  - exact (config_value_missing_or_blocked
             (TTable (<["bot" := TTable (<["token" := TStr "t"]> ∅)]> ∅))
             (TTable (<["token" := TStr "t"]> ∅)) ["bot"] [] "error_reply" None
             eq_refl eq_refl).
  - exact (config_value_missing_or_blocked
             (TTable (<["bot" := TTable (<["token" := TStr "t"]> ∅)]> ∅))
             (TStr "t") ["bot"; "token"] [] "x" None eq_refl).
Defined.

(** ** Rows of buttons *)

Lemma pair_up_ind {A} (P : list A -> Prop) :
  P [] -> (forall x, P [x]) -> (forall x y l, P l -> P (x :: y :: l)) ->
  forall l, P l.
Proof.
  intros H0 H1 H2.
  assert (H : forall l, P l /\ forall x, P (x :: l)).
  { induction l as [|y l [IH1 IH2]]; [by split|]. split; [apply IH2|].
    intros x. by apply H2. }
  intros l. apply H.
Qed.

(** The pairing loses no label and keeps the order: the rows, read one
    after the other, are the labels; there are [ceil(n/2)] rows, none is
    empty and none has more than two cells. *)
Theorem pair_up_rows {A} (l : list A) :
  List.concat (pair_up l) = l /\
  List.length (pair_up l) = ((List.length l + 1) / 2)%nat /\
  Forall (fun row => (1 <= List.length row <= 2)%nat) (pair_up l).
Proof.
  split; [|split].
  - induction l as [| |x y l IH] using pair_up_ind; [done|done|].
    rewrite pair_up_cons2. simpl. by rewrite IH.
  - unfold pair_up. by rewrite length_map, length_seq.
  - induction l as [| |x y l IH] using pair_up_ind.
    + constructor.
    + rewrite pair_up_one. repeat constructor.
    + rewrite pair_up_cons2. constructor; [simpl; lia|done].
Qed.

(** ** Registration *)

Lemma register_all_snoc regs r b :
  register_all (regs ++ [r])%list b
  = answer (fst (fst r)) (snd (fst r)) (snd r) (register_all regs b).
Proof. unfold register_all. by rewrite fold_left_app. Qed.

Lemma answer_keeps_rest message mode func b :
  default_answer (answer message mode func b) = default_answer b /\
  language (answer message mode func b) = language b /\
  config (answer message mode func b) = config b.
Proof. unfold answer. by destruct mode. Qed.

(** The last registration of a text wins: after any run of
    registrations that ends with a registration of [text] in a mode other
    than the parse mode, the text is answered by that handler, without
    arguments, and without a look at the parse and regex tables. *)
Theorem last_registration_wins (W : World) (b : Bot)
    (regs : list (string * Mode * handler)) (text : string) (mode : Mode)
    (func : handler) (s : Session) :
  mode <> PARSE ->
  resolve_route W (register_all (regs ++ [(text, mode, func)])%list b) text s
  = (Return (func, ∅), s).
Proof.
  intros Hm. rewrite register_all_snoc. simpl.
  unfold resolve_route.
  assert (H : simple_routes (answer text mode func (register_all regs b)) !! text
              = Some func).
  { unfold answer. destruct mode; [|..]; try done; simpl; apply lookup_insert_eq. }
  by rewrite H.
Qed.

Lemma last_registration_wins_witness :
  resolve_route demo_world
    (register_all ([("hi", DEFAULT, say "old")] ++ [("hi", DEFAULT, say "new")])%list
                  (empty_bot demo_config)) "hi" (session_of "de")
  = (Return (say "new", ∅), session_of "de").
Proof.
  apply (last_registration_wins demo_world (empty_bot demo_config)
           [("hi", DEFAULT, say "old")] "hi" DEFAULT (say "new") (session_of "de")).
  discriminate.
Defined.

(** Registering routes changes neither the default handler nor the
    language file nor the configuration, and a text that no table matches
    is answered by the handler that [Marvin.default_answer] stored. *)
Theorem default_answer_survives (W : World) (b : Bot) (func : handler)
    (regs : list (string * Mode * handler)) (text : string) (s : Session) :
  default_answer (register_all regs (set_default_answer func b)) = func /\
  language (register_all regs b) = language b /\
  config (register_all regs b) = config b /\
  (fst (resolution_tiered W (register_all regs (set_default_answer func b)) text)
   = DefaultTier ->
   resolve_route W (register_all regs (set_default_answer func b)) text s
   = (Return (func, ∅), s)).
Proof.
  assert (H : forall b0, default_answer (register_all regs b0) = default_answer b0 /\
                         language (register_all regs b0) = language b0 /\
                         config (register_all regs b0) = config b0).
  { induction regs as [|r regs IH] using rev_ind; intros b0; [done|].
    rewrite register_all_snoc.
    destruct (answer_keeps_rest (fst (fst r)) (snd (fst r)) (snd r)
                (register_all regs b0)) as (-> & -> & ->).
    apply IH. }
  destruct (H (set_default_answer func b)) as (Hd & _ & _).
  destruct (H b) as (_ & Hl & Hc).
  split; [done|]. split; [done|]. split; [done|].
  intros Ht. rewrite resolve_route_tiered. f_equal.
  unfold resolution_tiered in *.
  destruct (simple_routes _ !! text); [done|].
  destruct (first_match (parse_match W) _ text); [done|].
  destruct (first_match (regex_match W) _ text); [done|].
  simpl. by rewrite Hd.
Qed.

Lemma default_answer_survives_witness :
  resolve_route demo_world
    (register_all [("hi", DEFAULT, say "exact")]
                  (set_default_answer (say "fallback") (empty_bot demo_config)))
    "bye" (session_of "de")
  = (Return (say "fallback", ∅), session_of "de").
Proof.
  apply (default_answer_survives demo_world (empty_bot demo_config) (say "fallback")
           [("hi", DEFAULT, say "exact")] "bye" (session_of "de")).
  reflexivity.
Defined.

(** ** Sending *)

Section Silent.
Local Open Scope list_scope.
Variable W : World.
Variable b : Bot.

Lemma silent_ret {A} (a : A) : silent (ret a).
Proof. intros s a' s' E. by inversion E. Qed.

Lemma silent_raise {A} e : silent (@raise A e).
Proof. by intros s a s' E. Qed.

Lemma silent_get {A} (f : Session -> A) : silent (get f).
Proof. intros s a s' E. by inversion E. Qed.

Lemma silent_of_sum {A} (r : exn + A) : silent (of_sum r).
Proof. destruct r; [apply silent_raise|apply silent_ret]. Qed.

Lemma silent_bind {A B} (m : Py A) (k : A -> Py B) :
  silent m -> (forall a, silent (k a)) -> silent (bind m k).
Proof.
  intros Hm Hk s x s' E. unfold bind in E.
  destruct (m s) as [[a| |] s1] eqn:Em; [|done|done].
  rewrite <- (Hm s a s1 Em). by eapply Hk.
Qed.

(** A computation that ends by raising returns nothing. *)
Lemma silent_then_raise {A B} (m : Py A) e : silent (bind m (fun _ => @raise B e)).
Proof.
  intros s x s' E. unfold bind in E. by destruct (m s) as [[a| |] s1].
Qed.

Lemma silent_apply_formatting self answer : silent (apply_formatting W self answer).
Proof.
  unfold apply_formatting. destruct (format_content self); [apply silent_ret|].
  apply silent_bind; [apply silent_of_sum|intros; apply silent_ret].
Qed.

Lemma silent_apply_language self : silent (_apply_language W b self).
Proof.
  unfold _apply_language.
  apply silent_bind; [apply silent_get|intros u].
  apply silent_bind.
  { destruct (u ≫= language_code); [apply silent_ret|apply silent_raise]. }
  intros code.
  destruct (language_lookup b code (_msg self)); [apply silent_apply_formatting|].
  destruct (language_lookup b "default" (_msg self)); [apply silent_apply_formatting|].
  destruct (strict_mode (config b)); [apply silent_then_raise|apply silent_ret].
Qed.

Lemma silent_determine_media m self : silent (determine_media m self).
Proof.
  unfold determine_media. destruct m as [text|]; [|apply silent_raise].
  destruct (contains_char ":" text); [|apply silent_ret].
  destruct (split_once ":" text) as [command payload].
  destruct (is_media_command command); apply silent_ret.
Qed.

Lemma silent_msg self : silent (msg W b self).
Proof.
  unfold msg. apply silent_bind.
  - unfold retrieve_message.
    destruct (language_feature (config b)); [apply silent_apply_language|apply silent_ret].
  - intros m. destruct (media_type self); [apply silent_ret|apply silent_determine_media].
Qed.

Lemma silent_build_keyboard self : silent (build_keyboard self).
Proof.
  unfold build_keyboard. destruct (choices self) as [ch|].
  - apply silent_bind; [apply silent_of_sum|intros flat].
    apply silent_bind; [|intros; apply silent_ret].
    destruct flat; [|apply silent_ret].
    apply silent_bind; [apply silent_of_sum|intros; apply silent_ret].
  - destruct (keyboard self) as [kb|]; [|apply silent_ret].
    apply silent_bind; [apply silent_of_sum|intros flat].
    apply silent_bind; [|intros; apply silent_ret].
    destruct flat; [apply silent_raise|apply silent_ret].
Qed.

Lemma silent_get_config self : silent (_get_config b self).
Proof.
  unfold _get_config. apply silent_bind; [apply silent_build_keyboard|intros [kb self1]].
  apply silent_bind; [|intros; apply silent_ret].
  destruct (mark_as_answer (config b)); [|apply silent_ret].
  apply silent_bind; [apply silent_get|intros [m|]]; [apply silent_ret|apply silent_raise].
Qed.

Lemma silent_open_rb path : silent (open_rb W path).
Proof.
  unfold open_rb. destruct path as [p|]; [|apply silent_raise].
  destruct (file_exists W p); [apply silent_ret|apply silent_raise].
Qed.

(** The continuation of an answer is not touched by [msg] and
    [_get_config]. *)
Lemma post_msg_callback self :
  post (msg W b self) (fun r => callback (snd r) = callback self).
Proof.
  unfold msg. apply post_bind. intros m.
  destruct (media_type self); [by apply post_ret|].
  unfold determine_media. destruct m as [text|]; [|apply post_raise].
  destruct (contains_char ":" text); [|by apply post_ret].
  destruct (split_once ":" text) as [command payload].
  destruct (is_media_command command); [|by apply post_ret].
  apply post_ret. simpl.
  destruct (contains_char ";" payload); [|done].
  by destruct (split_once ";" payload).
Qed.

Lemma post_build_keyboard_callback self :
  post (build_keyboard self) (fun r => callback (snd r) = callback self).
Proof.
  unfold build_keyboard. destruct (choices self) as [ch|].
  - apply post_bind. intros flat.
    intros s r s' E. unfold bind in E.
    destruct flat.
    + destruct (labels_of ch) as [e|l]; simpl in E; [done|]. by inversion E.
    + simpl in E. by inversion E.
  - destruct (keyboard self) as [kb|]; [|by apply post_ret].
    apply post_bind. intros flat.
    intros s r s' E. unfold bind in E.
    destruct flat; simpl in E; [done|]. by inversion E.
Qed.

Lemma post_get_config_callback self :
  post (_get_config b self)
       (fun r => callback (snd r) = callback self /\
                 List.map fst (fst r) = config_keys).
Proof.
  unfold _get_config. intros s r s' E. unfold bind at 1 in E.
  destruct (build_keyboard self s) as [[[kb self1]| |] s1] eqn:Ek; [|done|done].
  pose proof (post_build_keyboard_callback self s _ _ Ek) as Hc. simpl in Hc.
  unfold bind in E.
  match type of E with
  | context [match ?m s1 with _ => _ end] => destruct (m s1) as [[rt| |] s2]
  end; [|done|done].
  inversion E; subst. by split.
Qed.

(** A send that returns has made exactly one call of the transport, the
    call was accepted, and nothing else of the session has changed. *)
Lemma send_returns self s sent a2 s' :
  _send W b self s = (Return (sent, a2), s') ->
  exists rq,
    s' = after (emit (EvSend rq (inr sent))) s /\
    send_reply W (trace s) rq = inr sent /\
    media_type a2 = Some (rq_kind rq) /\
    List.map fst (rq_kwargs rq) = sent_keys (rq_kind rq) /\
    callback a2 = callback self.
Proof.
  unfold _send. intros E. unfold bind at 1 in E.
  destruct (msg W b self s) as [[[m self1]| |] s1] eqn:Em; [|done|done].
  pose proof (silent_msg self s _ _ Em) as ->.
  pose proof (post_msg_callback self s _ _ Em) as Hc1. simpl in Hc1.
  unfold bind at 1 in E.
  destruct (_get_config b self1 s) as [[[kw self2]| |] s2] eqn:Eg; [|done|done].
  pose proof (silent_get_config self1 s _ _ Eg) as ->.
  destruct (post_get_config_callback self1 s _ _ Eg) as [Hc2 Hkeys]. simpl in Hc2, Hkeys.
  assert (Hsel : forall ks, List.map fst (select ks kw)
                            = List.filter (fun k => existsb (String.eqb k) ks) config_keys).
  { intros ks. rewrite <- Hkeys. unfold select. clear.
    induction kw as [|[k v] kw IH]; [done|]. simpl.
    destruct (existsb (String.eqb k) ks); simpl; by rewrite IH. }
  unfold bind at 1 in E.
  assert (Hts : forall rq s0 x s0',
             transport_send W rq s0 = (Return x, s0') ->
             s0' = after (emit (EvSend rq (inr x))) s0 /\
             send_reply W (trace s0) rq = inr x).
  { intros rq s0 x s0' Et. unfold transport_send, bind, get, emit, after in *.
    simpl in *. destruct (send_reply W (trace s0) rq) as [e|y]; simpl in Et; [done|].
    by inversion Et. }
  destruct (media_type self2) as [[]|] eqn:Ek; [| | | | | | |done];
    try (unfold bind at 1 in E;
         match type of E with
         | context [open_rb W ?p s] =>
             destruct (open_rb W p s) as [[f| |] s3] eqn:Eo; [|done|done];
             pose proof (silent_open_rb _ s _ _ Eo) as ->
         end);
    match type of E with
    | context [transport_send W ?rq s] =>
        destruct (transport_send W rq s) as [[x| |] s4] eqn:Et; [|done|done];
        destruct (Hts _ _ _ _ Et) as [Hs4 Hr];
        assert (Hx : x = sent /\ self2 = a2 /\ s4 = s') by (by inversion E);
        destruct Hx as (-> & <- & <-); exists rq;
        repeat split; try done; try (by rewrite Hc2, Hc1); simpl; by rewrite Hsel
    end.
Qed.
End Silent.

Lemma bind_assoc {A B C} (m : Py A) (k : A -> Py B) (k' : B -> Py C) s :
  bind (bind m k) k' s = bind m (fun a => bind (k a) k') s.
Proof. unfold bind. by destruct (m s) as [[a| |] s1]. Qed.

Lemma bind_ext {A B} (m : Py A) (k1 k2 : A -> Py B) s :
  (forall a s', k1 a s' = k2 a s') -> bind m k1 s = bind m k2 s.
Proof. intros H. unfold bind. destruct (m s) as [[a| |] s1]; [apply H|done|done]. Qed.

(** Sending a batch is sending its first part and then the rest: what
    was sent before a failing answer stays sent, and the answers after it
    are not looked at. *)
Theorem handle_answer_app (W : World) (b : Bot) (l1 l2 : list pyval) (s : Session) :
  handle_answer W b (l1 ++ l2)%list s
  = (handle_answer W b l1 ;;; handle_answer W b l2) s.
Proof.
  revert s. induction l1 as [|v l1 IH]; intros s; [done|].
  destruct v; try done. simpl. rewrite bind_assoc.
  apply bind_ext. intros [sent a1] s1. rewrite bind_assoc.
  apply bind_ext. intros _ s2. rewrite bind_assoc.
  apply bind_ext. intros _ s3. apply IH.
Qed.

(** A batch that is sent to its end consists of Answers only, and it has
    appended to the trace exactly one accepted send per answer and
    nothing else. *)
Theorem handle_answer_returns (W : World) (b : Bot) (l : list pyval) (s s' : Session) :
  handle_answer W b l s = (Return tt, s') ->
  Forall (fun v => is_Answer v = true) l /\
  exists evs,
    trace s' = (trace s ++ evs)%list /\
    List.length evs = List.length l /\
    Forall (fun ev => is_send ev = true) evs /\
    outbound (trace s') = (outbound (trace s) + List.length l)%nat.
Proof.
  revert s. induction l as [|v l IH]; intros s E.
  - inversion E; subst. split; [constructor|]. exists []. rewrite app_nil_r.
    repeat split; [constructor|simpl; lia].
  - destruct v; try done. simpl in E. unfold bind at 1 in E.
    destruct (_send W b a s) as [[[sent a1]| |] s1] eqn:Es; [|done|done].
    destruct (send_returns W b a s sent a1 s1 Es) as (rq & -> & _).
    unfold bind at 1 in E. simpl in E. unfold bind at 1 in E.
    match type of E with
    | context [match ?m ?s0 with _ => _ end] =>
        destruct (m s0) as [[[]| |] s2] eqn:Er; [|done|done]
    end.
    assert (Ht : trace s2 = (trace s ++ [EvSend rq (inr sent)])%list).
    { destruct (callback a1); unfold bind, get, set_query_callback, ret in Er;
        simpl in Er; by inversion Er. }
    destruct (IH s2 E) as (Hall & evs & Htr & Hlen & Hev & Hout).
    split; [by constructor|].
    exists (EvSend rq (inr sent) :: evs).
    split; [by rewrite Htr, Ht, <- app_assoc|].
    split; [simpl; by rewrite Hlen|]. split; [by constructor|].
    rewrite Hout, Ht, outbound_app. unfold outbound at 2. simpl. lia.
Qed.

Lemma handle_answer_returns_witness :
  outbound (trace (after (handle_answer demo_world (empty_bot demo_config)
                            [VAnswer (Answer_new "a" []); VAnswer (Answer_new "b" [])])
                         (session_of "de")))
  = (outbound (trace (session_of "de")) + 2)%nat.
Proof.
  destruct (handle_answer_returns demo_world (empty_bot demo_config)
              [VAnswer (Answer_new "a" []); VAnswer (Answer_new "b" [])]
              (session_of "de")
              (after (handle_answer demo_world (empty_bot demo_config)
                        [VAnswer (Answer_new "a" []); VAnswer (Answer_new "b" [])])
                     (session_of "de")) eq_refl)
    as (_ & evs & _ & _ & _ & H).
  exact H.
Defined.



(** ** What the pipeline appends and raises *)

(** The run stopped at the first computation of a sequence. *)
Ltac stop_spec Ha Hq Hd :=
  split; [exact Ha|split;
    [ let E := fresh in intros ? E; first [discriminate E | inversion E; subst; by apply Hq]
    | let E := fresh in intros E; first [discriminate E | by apply Hd] ]].

Section Combinators.
Local Open Scope list_scope.
Variable P : event -> Prop.

Lemma appends_refl s : appends P s s.
Proof. exists []. by rewrite app_nil_r. Qed.

Lemma appends_trans s1 s2 s3 : appends P s1 s2 -> appends P s2 s3 -> appends P s1 s3.
Proof.
  intros (e1 & T1 & F1) (e2 & T2 & F2). exists (e1 ++ e2).
  split; [by rewrite T2, T1, app_assoc|by apply Forall_app].
Qed.

Lemma spec_ret Q D {A} (a : A) : run_spec P Q D (ret a).
Proof. intros s. split; [apply appends_refl|by split]. Qed.

Lemma spec_raise (Q : exn -> Prop) D {A} e : Q e -> run_spec P Q D (@raise A e).
Proof.
  intros H s. split; [apply appends_refl|]. split; [|done].
  intros e' E. by inversion E; subst.
Qed.

Lemma spec_diverge Q (D : Prop) {A} : D -> run_spec P Q D (@diverge A).
Proof. intros H s. split; [apply appends_refl|by split]. Qed.

Lemma spec_get Q D {A} (f : Session -> A) : run_spec P Q D (get f).
Proof. intros s. split; [apply appends_refl|by split]. Qed.

Lemma spec_of_sum (Q : exn -> Prop) D {A} (r : exn + A) :
  (forall e, r = inl e -> Q e) -> run_spec P Q D (of_sum r).
Proof. destruct r as [e|a]; intros H; [apply spec_raise; by apply H|apply spec_ret]. Qed.

Lemma spec_call (Q : exn -> Prop) D o :
  (forall e, o = Raises e -> Q e) -> run_spec P Q D (call o).
Proof. destruct o as [v|e]; intros H; [apply spec_ret|apply spec_raise; by apply H]. Qed.

Lemma spec_bind Q D {A B} (m : Py A) (k : A -> Py B) :
  run_spec P Q D m -> (forall a, run_spec P Q D (k a)) -> run_spec P Q D (bind m k).
Proof.
  intros Hm Hk s. unfold bind. destruct (Hm s) as (Ha & Hq & Hd).
  destruct (m s) as [[a| |] s1]; simpl in *;
    [|stop_spec Ha Hq Hd|stop_spec Ha Hq Hd].
  destruct (Hk a s1) as (Ha' & Hq' & Hd').
  split; [by eapply appends_trans|by split].
Qed.

Lemma spec_bind_post Q D {A B} (m : Py A) (k : A -> Py B) (R : A -> Prop) :
  run_spec P Q D m -> post m R -> (forall a, R a -> run_spec P Q D (k a)) ->
  run_spec P Q D (bind m k).
Proof.
  intros Hm HR Hk s. unfold bind. destruct (Hm s) as (Ha & Hq & Hd).
  specialize (HR s).
  destruct (m s) as [[a| |] s1]; simpl in *;
    [|stop_spec Ha Hq Hd|stop_spec Ha Hq Hd].
  destruct (Hk a (HR a s1 eq_refl) s1) as (Ha' & Hq' & Hd').
  split; [by eapply appends_trans|by split].
Qed.

Lemma spec_try (Qb Q : exn -> Prop) D {A} (m : Py A) (h : exn -> Py A) :
  run_spec P Qb D m -> (forall e, Qb e -> run_spec P Q D (h e)) ->
  run_spec P Q D (try_except m h).
Proof.
  intros Hm Hh s. unfold try_except. destruct (Hm s) as (Ha & Hq & Hd).
  destruct (m s) as [[a|e|] s1]; simpl in *;
    [split; [done|by split]| |split; [done|by split]].
  destruct (Hh e (Hq e eq_refl) s1) as (Ha' & Hq' & Hd').
  split; [by eapply appends_trans|by split].
Qed.

Lemma spec_emit Q D ev : P ev -> run_spec P Q D (emit ev).
Proof.
  intros H s. split; [|by split]. exists [ev]. split; [done|by apply Forall_singleton].
Qed.

Lemma spec_set_last_sent Q D a sent : run_spec P Q D (set_last_sent a sent).
Proof.
  intros s. split; [|by split]. exists []. split; [|constructor].
  simpl. by rewrite app_nil_r.
Qed.

Lemma spec_set_context Q D m u : run_spec P Q D (set_context m u).
Proof.
  intros s. split; [|by split]. exists []. split; [|constructor].
  simpl. by rewrite app_nil_r.
Qed.

Lemma spec_set_query_callback Q D t : run_spec P Q D (set_query_callback t).
Proof.
  intros s. split; [|by split]. exists []. split; [|constructor].
  simpl. by rewrite app_nil_r.
Qed.
End Combinators.

Lemma select_keys ks kw :
  List.map fst (select ks kw)
  = List.filter (fun k => existsb (String.eqb k) ks) (List.map fst kw).
Proof.
  unfold select. induction kw as [|[k v] kw IH]; [done|]. simpl.
  destruct (existsb (String.eqb k) ks); simpl; by rewrite IH.
Qed.

Section Pipeline.
Local Open Scope list_scope.
Variable W : World.
Variable b : Bot.
Variable P : event -> Prop.
Variable Qb : exn -> Prop.
Variable D : Prop.

Hypothesis P_log : forall lvl text, P (EvLog lvl text).
Hypothesis P_send : forall k content kw r,
  List.map fst kw = config_keys ->
  P (EvSend (mkRequest k content (select (send_filter k) kw)) r).
Hypothesis Qb_builtin : forall c m, is_OSError (builtin_exn c m) = false ->
                                    Qb (builtin_exn c m).
Hypothesis Qb_file : forall l p fr, Qb (mkExn FileNotFoundError l p fr).
Hypothesis Qb_format : forall t fc e, str_format W t fc = inl e -> Qb e.
Hypothesis Qb_send : forall h rq e, send_reply W h rq = inl e -> Qb e.

Lemma spec_apply_formatting self answer :
  run_spec P Qb D (apply_formatting W self answer).
Proof.
  unfold apply_formatting. destruct (format_content self); [apply spec_ret|].
  apply spec_bind; [apply spec_of_sum; apply Qb_format|intros; apply spec_ret].
Qed.

Lemma spec_apply_language self : run_spec P Qb D (_apply_language W b self).
Proof.
  unfold _apply_language.
  apply spec_bind; [apply spec_get|intros u].
  apply spec_bind.
  { destruct (u ≫= language_code); [apply spec_ret|by apply spec_raise, Qb_builtin]. }
  intros code.
  destruct (language_lookup b code (_msg self)); [apply spec_apply_formatting|].
  destruct (language_lookup b "default" (_msg self)); [apply spec_apply_formatting|].
  destruct (strict_mode (config b)); [|apply spec_ret].
  apply spec_bind; [apply spec_emit, P_log|intros _; by apply spec_raise, Qb_builtin].
Qed.

Lemma spec_determine_media m self : run_spec P Qb D (determine_media m self).
Proof.
  unfold determine_media. destruct m as [text|]; [|by apply spec_raise, Qb_builtin].
  destruct (contains_char ":" text); [|apply spec_ret].
  destruct (split_once ":" text) as [command payload].
  destruct (is_media_command command); apply spec_ret.
Qed.

Lemma spec_msg self : run_spec P Qb D (msg W b self).
Proof.
  unfold msg. apply spec_bind.
  - unfold retrieve_message.
    destruct (language_feature (config b)); [apply spec_apply_language|apply spec_ret].
  - intros m. destruct (media_type self); [apply spec_ret|apply spec_determine_media].
Qed.

Lemma spec_labels_of ch : run_spec P Qb D (of_sum (labels_of ch)).
Proof.
  apply spec_of_sum. intros e He. destruct ch; [done|].
  inversion He. by apply Qb_builtin.
Qed.

Lemma spec_first_is_str ch : run_spec P Qb D (of_sum (first_is_str ch)).
Proof.
  apply spec_of_sum. intros e He.
  destruct ch as [[|]|[|]]; inversion He; by apply Qb_builtin.
Qed.

Lemma spec_build_keyboard self : run_spec P Qb D (build_keyboard self).
Proof.
  unfold build_keyboard. destruct (choices self) as [ch|].
  - apply spec_bind; [apply spec_first_is_str|intros flat].
    apply spec_bind; [|intros; apply spec_ret].
    destruct flat; [|apply spec_ret].
    apply spec_bind; [apply spec_labels_of|intros; apply spec_ret].
  - destruct (keyboard self) as [kb|]; [|apply spec_ret].
    apply spec_bind; [apply spec_first_is_str|intros flat].
    apply spec_bind; [|intros; apply spec_ret].
    destruct flat; [by apply spec_raise, Qb_builtin|apply spec_ret].
Qed.

Lemma spec_get_config self : run_spec P Qb D (_get_config b self).
Proof.
  unfold _get_config. apply spec_bind; [apply spec_build_keyboard|intros [kb self1]].
  apply spec_bind; [|intros; apply spec_ret].
  destruct (mark_as_answer (config b)); [|apply spec_ret].
  apply spec_bind; [apply spec_get|intros [m|]];
    [apply spec_ret|by apply spec_raise, Qb_builtin].
Qed.

Lemma spec_open_rb path : run_spec P Qb D (open_rb W path).
Proof.
  unfold open_rb. destruct path as [p|]; [|by apply spec_raise, Qb_builtin].
  destruct (file_exists W p); [apply spec_ret|apply spec_raise, Qb_file].
Qed.

Lemma spec_transport_send k content kw :
  List.map fst kw = config_keys ->
  run_spec P Qb D
    (transport_send W (mkRequest k content (select (send_filter k) kw))).
Proof.
  intros Hk. unfold transport_send. apply spec_bind; [apply spec_get|intros h].
  apply spec_bind; [by apply spec_emit, P_send|intros _].
  apply spec_of_sum. intros e. apply Qb_send.
Qed.

Lemma spec_send self : run_spec P Qb D (_send W b self).
Proof.
  unfold _send. apply spec_bind; [apply spec_msg|intros [m self1]].
  eapply spec_bind_post;
    [apply spec_get_config|apply (post_get_config_callback b self1)|].
  intros [kw self2] [_ Hk]. simpl in Hk.
  apply spec_bind; [|intros; apply spec_ret].
  destruct (media_type self2) as [[]|];
    first [ by apply (spec_transport_send TEXT)
          | by apply (spec_transport_send STICKER)
          | by apply spec_raise, Qb_builtin
          | apply spec_bind; [apply spec_open_rb|intros f] ].
  - by apply (spec_transport_send VOICE).
  - by apply (spec_transport_send AUDIO).
  - by apply (spec_transport_send PHOTO).
  - by apply (spec_transport_send VIDEO).
  - by apply (spec_transport_send DOCUMENT).
Qed.

Lemma spec_handle_answer answers : run_spec P Qb D (handle_answer W b answers).
Proof.
  induction answers as [|v rest IH]; [apply spec_ret|].
  destruct v; try (by apply spec_raise, Qb_builtin). simpl.
  apply spec_bind; [apply spec_send|intros [sent a1]].
  apply spec_bind; [apply spec_set_last_sent|intros _].
  apply spec_bind; [|intros _; exact IH].
  destruct (callback a1); [|apply spec_ret].
  apply spec_bind; [apply spec_get|intros t; apply spec_set_query_callback].
Qed.

Lemma spec_prepare_body answer log : run_spec P Qb D (prepare_body W b answer log).
Proof.
  unfold prepare_body.
  assert (Hgen : run_spec P Qb D (let* a := unify_answer answer in
                                  dispatch_answer W b a ;;; ret true)).
  { apply spec_bind.
    - unfold unify_answer. destruct (negb (is_complex answer)); [apply spec_ret|].
      destruct answer; try apply spec_ret;
        (destruct l as [|x rest]; [by apply spec_raise, Qb_builtin|];
         destruct (negb (is_Answer x)); apply spec_ret).
    - intros a. apply spec_bind; [|intros; apply spec_ret].
      unfold dispatch_answer.
      destruct a; try apply spec_ret; apply spec_handle_answer. }
  destruct answer; try exact Hgen.
  apply spec_bind; [apply spec_emit, P_log|intros; apply spec_ret].
Qed.

Variable Q : exn -> Prop.
Hypothesis Q_read : forall e, Qb e ->
  readable e \/ Q (builtin_exn IndexError "tuple index out of range").

Lemma spec_prepare_except he log e :
  Qb e -> run_spec P Q D he -> run_spec P Q D (prepare_except he log e).
Proof.
  intros He Hhe. unfold prepare_except.
  assert (Hlog : forall text, run_spec P Q D (log_ WARNING text ;;; he ;;; ret false)).
  { intros text. apply spec_bind; [apply spec_emit, P_log|intros _].
    apply spec_bind; [exact Hhe|intros; apply spec_ret]. }
  assert (Hidx : forall (o : option string),
             (readable e -> is_Some o) ->
             run_spec P Q D
               (of_sum (match o with
                        | Some m => inr m
                        | None => inl (builtin_exn IndexError "tuple index out of range")
                        end))).
  { intros o Ho. apply spec_of_sum. intros e' He'.
    destruct o as [m|]; [done|]. inversion He'; subst.
    destruct (Q_read e He) as [Hr|Hq]; [|done].
    destruct (Ho Hr) as [? ?]. done. }
  unfold readable in Hidx. unfold exn_message.
  destruct (exn_cls e) eqn:Ec; try apply Hlog;
    (apply spec_bind; [apply Hidx; tauto|intros m; apply Hlog]).
Qed.

Lemma spec_prepare_answer_step n answer log :
  run_spec P Q D (handle_error W b n) ->
  run_spec P Q D (prepare_answer W b (S n) answer log).
Proof.
  intros Hhe. simpl. apply spec_bind.
  - eapply spec_try; [apply spec_prepare_body|intros e He].
    by apply spec_prepare_except.
  - intros completed.
    destruct (completed && negb (String.eqb log ""));
      [apply spec_emit, P_log|apply spec_ret].
Qed.
End Pipeline.

(** ** The text pipeline as a whole *)

Lemma handle_text_message_returns W b fuel m s v :
  fst (snd (resolution_tiered W b (message_text m)))
      (snd (snd (resolution_tiered W b (message_text m)))) = Returns v ->
  handle_text_message W b fuel m s
  = prepare_answer W b fuel v (message_log (user s) (message_text m))
                   (after (set_context m (user s)) s).
Proof.
  intros Hr. unfold handle_text_message, bind at 1, get. simpl.
  unfold bind at 1. simpl. unfold bind at 1. rewrite resolve_route_tiered.
  destruct (snd (resolution_tiered W b (message_text m))) as [func kw].
  simpl in Hr. unfold bind at 1, try_except, bind at 1. by rewrite Hr.
Qed.

Lemma exn_message_index e ie :
  exn_message e = inl ie -> ie = builtin_exn IndexError "tuple index out of range".
Proof.
  unfold exn_message. destruct (exn_args e !! _); [done|]. by intros [= <-].
Qed.

(** The pipeline of a text message, given what [prepare_answer] does at
    the same budget. *)
Lemma spec_handle_text_message (P : event -> Prop) (Q : exn -> Prop) (D : Prop)
    W b fuel m :
  (forall lvl text, P (EvLog lvl text)) ->
  (forall answer log, run_spec P Q D (prepare_answer W b fuel answer log)) ->
  (forall e,
     fst (snd (resolution_tiered W b (message_text m)))
         (snd (snd (resolution_tiered W b (message_text m)))) = Raises e ->
     (exists em, exn_message e = inr em) \/
     Q (builtin_exn IndexError "tuple index out of range")) ->
  run_spec P Q D (handle_text_message W b fuel m).
Proof.
  intros Hlog Hp Hh s.
  assert (Hctx : trace (after (set_context m (user s)) s) = trace s) by done.
  assert (Hlift : forall (r : result unit * Session),
             appends P (after (set_context m (user s)) s) (snd r) ->
             appends P s (snd r)).
  { intros r (evs & Ht & Hf). exists evs. by rewrite Ht, Hctx. }
  destruct (fst (snd (resolution_tiered W b (message_text m)))
                (snd (snd (resolution_tiered W b (message_text m)))))
    as [v|e] eqn:Hr.
  - rewrite (handle_text_message_returns W b fuel m s v Hr).
    destruct (Hp v (message_log (user s) (message_text m))
                 (after (set_context m (user s)) s)) as (Ha & Hq & Hd).
    split; [by apply Hlift|by split].
  - rewrite (handle_text_message_raises W b fuel m s e Hr). simpl.
    destruct (exn_message e) as [ie|em] eqn:He.
    + pose proof (exn_message_index e ie He) as ->.
      split; [exists []; simpl; by rewrite app_nil_r|]. split; [|done].
      intros e' E. inversion E; subst.
      destruct (Hh e eq_refl) as [[em Hem]|HQ]; [congruence|done].
    + assert (Hs : run_spec P Q D
                (log_ WARNING
                   (message_log (user s) (message_text m) ++ nl ++ tab ++
                    "During the processing occured an error" ++ nl ++
                    tab ++ tab ++ "Error message: " ++ em ++ nl ++
                    traceback_text e ++ tab ++ "Nothing was returned to the user") ;;;
                 handle_error W b fuel)).
      { apply spec_bind; [by apply spec_emit|intros _].
        unfold handle_error. destruct (error_reply (config b)); [apply Hp|apply spec_ret]. }
      destruct (Hs (after (set_context m (user s)) s)) as (Ha & Hq & Hd).
      split; [by apply Hlift|by split].
Qed.

Lemma sent_keys_filter k kw :
  List.map fst kw = config_keys ->
  List.map fst (select (send_filter k) kw) = sent_keys k.
Proof. intros H. rewrite select_keys, H. by destruct k. Qed.

Lemma spec_prepare_answer_keys W b fuel answer log :
  run_spec send_keys_ok (fun _ => True) True (prepare_answer W b fuel answer log).
Proof.
  revert answer log. induction fuel as [|n IH]; intros answer log;
    [by apply spec_diverge|].
  apply spec_prepare_answer_step with (Qb := fun _ => True); try done.
  - intros k content kw r Hk. simpl. by apply sent_keys_filter.
  - intros e _. by right.
  - unfold handle_error. destruct (error_reply (config b)); [apply IH|apply spec_ret].
Qed.

(** Whatever a text message leads to, every call of a send operation it
    makes carries exactly the keyword arguments of its kind: a text goes
    with parse mode, reply target, preview and notification flags and
    markup; a sticker with reply target, notification flag and markup;
    every other medium with parse mode, reply target, notification flag,
    markup and caption.  Duration, performer, title, width, height and
    streaming support are never passed. *)
Theorem sends_carry_their_keys (W : World) (b : Bot) (fuel : nat) (m : Message)
    (s : Session) :
  exists evs,
    trace (after (handle_text_message W b fuel m) s) = (trace s ++ evs)%list /\
    Forall send_keys_ok evs.
Proof.
  apply (spec_handle_text_message send_keys_ok (fun _ => True) True W b fuel m);
    [done|apply spec_prepare_answer_keys|by right].
Qed.

Lemma readable_builtin c m :
  is_OSError (builtin_exn c m) = false -> readable (builtin_exn c m).
Proof. unfold readable. destruct c; simpl; try done; eauto. Qed.

Lemma spec_prepare_answer_contained W b fuel answer log :
  (forall t fc e, str_format W t fc = inl e -> readable e) ->
  (forall h rq e, send_reply W h rq = inl e -> readable e) ->
  run_spec (fun _ => True) (fun _ => False) True (prepare_answer W b fuel answer log) /\
  (error_reply (config b) = None -> fuel <> 0%nat ->
   run_spec (fun _ => True) (fun _ => False) False
            (prepare_answer W b fuel answer log)).
Proof.
  intros Hf Hs. split.
  - revert answer log. induction fuel as [|n IH]; intros answer log;
      [by apply spec_diverge|].
    apply spec_prepare_answer_step with (Qb := readable); try done.
    + apply readable_builtin.
    + intros e He. by left.
    + unfold handle_error. destruct (error_reply (config b)); [apply IH|apply spec_ret].
  - intros Hn H0. destruct fuel as [|n]; [done|].
    apply spec_prepare_answer_step with (Qb := readable); try done.
    + apply readable_builtin.
    + intros e He. by left.
    + unfold handle_error. rewrite Hn. apply spec_ret.
Qed.

(** When the exceptions (instances of [Exception]) of the formatter, of
    the transport and of the routed handler carry the message the
    recovery reads, handling a text message ends in one of two ways: it
    returns, or the recursion of error replies runs into the recursion
    limit and the RecursionError leaves the event ([Diverge]).  No other
    exception leaves it, and without a configured error reply it always
    returns. *)
Theorem text_event_contained (W : World) (b : Bot) (fuel : nat) (m : Message)
    (s : Session) :
  (forall t fc e, str_format W t fc = inl e -> readable e) ->
  (forall h rq e, send_reply W h rq = inl e -> readable e) ->
  (forall e,
     fst (snd (resolution_tiered W b (message_text m)))
         (snd (snd (resolution_tiered W b (message_text m)))) = Raises e ->
     exists em, exn_message e = inr em) ->
  (fst (handle_text_message W b fuel m s) = Return tt \/
   fst (handle_text_message W b fuel m s) = Diverge) /\
  (error_reply (config b) = None -> fuel <> 0%nat ->
   fst (handle_text_message W b fuel m s) = Return tt).
Proof.
  intros Hf Hs Hh. split.
  - assert (H : run_spec (fun _ => True) (fun _ => False) True
                  (handle_text_message W b fuel m)).
    { apply spec_handle_text_message; [done| |intros e' He'; left; by apply Hh].
      intros answer log. by apply spec_prepare_answer_contained. }
    destruct (H s) as (_ & Hq & _).
    destruct (fst (handle_text_message W b fuel m s)) as [[]|e|];
      [by left|destruct (Hq e eq_refl)|by right].
  - intros Hn H0.
    assert (H : run_spec (fun _ => True) (fun _ => False) False
                  (handle_text_message W b fuel m)).
    { apply spec_handle_text_message; [done| |intros e' He'; left; by apply Hh].
      intros answer log. by apply spec_prepare_answer_contained. }
    destruct (H s) as (_ & Hq & Hd).
    destruct (fst (handle_text_message W b fuel m s)) as [[]|e|]; [done| |].
    + destruct (Hq e eq_refl).
    + destruct (Hd eq_refl).
Qed.

Lemma format_arg_readable fc i e : format_arg fc i = inl e -> readable e.
Proof.
  unfold format_arg. destruct (fc !! i); [done|].
  intros [= <-]. by apply readable_builtin.
Qed.

Lemma format_field_readable name num fc e :
  format_field name num fc = inl e -> readable e.
Proof.
  unfold format_field.
  destruct (String.eqb name ""); [|destruct (digits_value name 0) as [i|]];
    [destruct num as [|n|]|destruct num as [|n|]|];
    try (intros [= <-]; by apply readable_builtin);
    match goal with
    | |- context [format_arg fc ?i] =>
        let E := fresh "E" in
        destruct (format_arg fc i) as [e0|t0] eqn:E;
        [intros [= <-]; by eapply format_arg_readable|discriminate]
    end.
Qed.

(** The formatter of the concrete world raises readable exceptions. *)
Lemma format_from_readable t st num fc e :
  format_from t st num fc = inl e -> readable e.
Proof.
  revert st num e. induction t as [|c t IH]; intros st num e; simpl.
  - destruct st; intros [= <-]; by apply readable_builtin.
  - destruct st;
      repeat match goal with
             | |- context [Ascii.eqb ?x ?y] => destruct (Ascii.eqb x y)
             end;
      try (by apply IH);
      try (intros [= <-]; by apply readable_builtin);
      try (match goal with
           | |- context [format_field ?n num fc] =>
               let E := fresh "E" in
               destruct (format_field n num fc) as [e0|[t0 num']] eqn:E;
               [intros [= <-]; by eapply format_field_readable|]
           end);
      match goal with
      | |- context [format_from t ?st0 ?n0 fc] =>
          let E := fresh "E" in
          destruct (format_from t st0 n0 fc) as [e0|r0] eqn:E;
          [intros [= <-]; by eapply IH|discriminate]
      end.
Qed.

Lemma text_event_contained_witness :
  fst (handle_text_message demo_world (failing_bot fails_with_message None) 1
                           (mkMessage 1 "x") (session_of "de")) = Return tt.
Proof.
  apply (text_event_contained demo_world (failing_bot fails_with_message None) 1
           (mkMessage 1 "x") (session_of "de")).
  - intros t fc e. apply format_from_readable.
  - intros h rq e. simpl. discriminate.
  - intros e. vm_compute. intros [= <-]. by eexists.
  - reflexivity.
  - discriminate.
Defined.

(** Handling a text message calls no continuation and keeps every
    pending continuation, unless the transport gives the id of its
    message to one of the messages sent from now on. *)
Theorem text_keeps_callbacks (W : World) (b : Bot) (fuel : nat) (m : Message)
    (K : Z -> Prop) (s : Session) :
  (forall h rq x, send_reply W (trace s ++ h)%list rq = inr x -> ~ K x) ->
  (forall k, K k ->
     query_callback (after (handle_text_message W b fuel m) s) !! k
     = query_callback s !! k) /\
  invocations (trace (after (handle_text_message W b fuel m) s))
  = invocations (trace s).
Proof.
  intros Hfresh.
  assert (Hs1 : since (trace s) (after (set_context m (user s)) s)).
  { exists []. simpl. by rewrite app_nil_r. }
  assert (Hk : kept K s (after (handle_text_message W b fuel m) s)).
  { apply (kept_trans K s (after (set_context m (user s)) s));
      [apply frame_set_context|].
    unfold after at 2.
    destruct (fst (snd (resolution_tiered W b (message_text m)))
                  (snd (snd (resolution_tiered W b (message_text m)))))
      as [v|e] eqn:Hr.
    - rewrite (handle_text_message_returns W b fuel m s v Hr).
      by apply (frame_since_prepare_answer W b K (trace s)).
    - rewrite (handle_text_message_raises W b fuel m s e Hr). simpl.
      destruct (exn_message e) as [ie|em]; [apply kept_refl|].
      apply (frame_since_bind K (trace s));
        [apply frame_since_of_frame, frame_log|intros _|exact Hs1].
      unfold handle_error.
      destruct (error_reply (config b));
        [by apply frame_since_prepare_answer|apply frame_since_of_frame, frame_ret]. }
  split; [by destruct Hk|by apply (kept_invocations K)].
Qed.

Lemma text_keeps_callbacks_witness :
  query_callback (asked demo_world thanks) !! 100%Z = Some thanks /\
  query_callback (after (handle_text_message demo_world (bye_bot false None) 2
                           (mkMessage 1 "x")) (asked demo_world thanks)) !! 100%Z
  = query_callback (asked demo_world thanks) !! 100%Z /\
  outbound (trace (after (handle_text_message demo_world (bye_bot false None) 2
                            (mkMessage 1 "x")) (asked demo_world thanks)))
  = 2%nat.
Proof.
  split; [by vm_compute|]. split; [|by vm_compute].
  apply (proj1 (text_keeps_callbacks demo_world (bye_bot false None) 2
                  (mkMessage 1 "x") (fun k => k = 100%Z) (asked demo_world thanks)
                  (fun h rq x E (Hx : x = 100%Z) =>
                     Z.lt_irrefl 100
                       (eq_ind x (fun y => (100 < y)%Z)
                               (asked_later_ids thanks h rq x E) 100%Z Hx)))
           100%Z eq_refl).
Defined.

(** ** Callback queries on a session that has sent nothing *)

(** With the rewriting of answered queries enabled, a callback query that
    reaches a session which has not sent anything yet (and so has no
    continuation for it) is acknowledged and then fails with a
    [TypeError] on the missing last answer. *)
Theorem stale_query_raises (W : World) (b : Bot) (fuel : nat) (q : Query)
    (s : Session) :
  last_sent s = None -> replace_query (config b) = true ->
  query_callback s !! query_message_id q = None ->
  ack_reply W (trace s) (query_id q) = None ->
  on_callback_query W b fuel q s
  = (Raise (builtin_exn TypeError "'NoneType' object is not subscriptable"),
     after (emit (EvAck (query_id q) None)) s).
Proof.
  intros Hls Hrq Hnone Hack.
  rewrite (on_callback_query_absent W b fuel s q Hnone).
  unfold acknowledge_and_answer, answerCallbackQuery, bind, get, emit, after. simpl.
  rewrite Hack, Hrq. simpl.
  unfold replace_query_text, bind, get. simpl. by rewrite Hls.
Qed.

Lemma stale_query_raises_witness :
  on_callback_query demo_world
    (mkBot ∅ [] [] no_answer ∅ (mkConfig false None false false false false None true))
    1 (tap 5) (new_session (user_with "de"))
  = (Raise (builtin_exn TypeError "'NoneType' object is not subscriptable"),
     after (emit (EvAck "q1" None)) (new_session (user_with "de"))).
Proof.
  apply (stale_query_raises demo_world
           (mkBot ∅ [] [] no_answer ∅ (mkConfig false None false false false false None true))
           1 (tap 5) (new_session (user_with "de"))); reflexivity.
Defined.

(** ** Reading the text of an answer again *)

(** Without localisation, reading [msg] a second time, on the object the
    first reading left, gives the same text and leaves the object as it
    is: the media type is determined once. *)
Theorem msg_read_again (W : World) (b : Bot) (self a1 : Answer)
    (m : option string) (s s' : Session) :
  language_feature (config b) = false ->
  msg W b self s = (Return (m, a1), s') ->
  msg W b a1 s' = (Return (m, a1), s').
Proof.
  intros Hl. unfold msg, retrieve_message, bind. rewrite Hl. simpl.
  destruct (media_type self) as [k|] eqn:Hk.
  - intros [= <- <- <-]. by rewrite Hk.
  - unfold determine_media. destruct (_msg self) as [text|] eqn:Ht; [|done].
    destruct (contains_char ":" text).
    + destruct (split_once ":" text) as [command payload].
      destruct (is_media_command command); intros [= <- <- <-]; simpl;
        by rewrite ?Ht.
    + intros [= <- <- <-]. simpl. by rewrite Ht.
Qed.

Lemma msg_read_again_witness :
  msg demo_world (empty_bot demo_config)
      (mkAnswer None [] None None None (Some PHOTO) (Some "abc123") (Some "a cat") 0)
      (session_of "de")
  = (Return (None, mkAnswer None [] None None None (Some PHOTO)
                            (Some "abc123") (Some "a cat") 0), session_of "de").
Proof.
  apply (msg_read_again demo_world (empty_bot demo_config)
           (Answer_new "photo:abc123;a cat" []) _ None (session_of "de")
           (session_of "de")); reflexivity.
Defined.

(** ** Stickers *)

(** Unless the extraction of emojis is switched on, a sticker gets no
    reply: the default sticker handler is awaited, but what it returns is
    handed to a coroutine that is never awaited, so the session is left
    as it was, whatever the handler returns. *)
Theorem sticker_gets_no_reply (W : World) (b : Bot) (cfg : toml) (fuel : nat)
    (m : ChatMessage) (v : pyval) (x : option toml) (s : Session) :
  chat_text m = None -> is_Some (chat_sticker m) ->
  _config_value cfg ["bot"; "extract_emojis"] (Some (TBool false)) = inr x ->
  truthy x = false ->
  on_chat_message W b cfg (Returns v) fuel m s = (Return tt, s).
Proof.
  intros Ht [e He] Hc Hx. unfold on_chat_message. rewrite Ht, He.
  unfold handle_sticker, bind. rewrite Hc. simpl. by rewrite Hx.
Qed.

Lemma sticker_gets_no_reply_witness :
  on_chat_message demo_world (empty_bot demo_config) sticker_config
                  (Returns (VStr "Nice sticker")) 3
                  (mkChatMessage 1 None (Some (Some "smile"))) (session_of "de")
  = (Return tt, session_of "de").
Proof.
  apply (sticker_gets_no_reply demo_world (empty_bot demo_config) sticker_config 3
           (mkChatMessage 1 None (Some (Some "smile"))) (VStr "Nice sticker")
           (Some (TBool false)) (session_of "de")); try reflexivity.
  by eexists.
Defined.



(** ** An error reply that cannot be sent *)

Lemma msg_plain_text W b r fc s :
  language_feature (config b) = false -> contains_char ":" r = false ->
  msg W b (Answer_new r fc) s
  = (Return (Some r, set_media_type (Answer_new r fc) (Some TEXT)), s).
Proof.
  intros Hl Hc. unfold msg, retrieve_message. rewrite Hl.
  unfold bind, ret, Answer_new, _msg, media_type, determine_media.
  by rewrite Hc.
Qed.

Lemma get_config_plain b a s :
  mark_as_answer (config b) = false -> choices a = None -> keyboard a = None ->
  _get_config b a s
  = (Return ([("parse_mode", KStr (markup (config b)));
              ("reply_to_message_id", KInt None);
              ("disable_web_page_preview", KBool (disable_web_preview (config b)));
              ("disable_notification", KBool (disable_notification (config b)));
              ("reply_markup", KMarkup None);
              ("caption", KStr (caption a))], a), s).
Proof.
  intros Hm Hc Hk. unfold _get_config, build_keyboard. rewrite Hc, Hk, Hm.
  reflexivity.
Qed.

Lemma send_text_rejected W b r s e :
  language_feature (config b) = false -> mark_as_answer (config b) = false ->
  contains_char ":" r = false ->
  send_reply W (trace s) (text_request b r) = inl e ->
  _send W b (Answer_new r []) s
  = (Raise e, after (emit (EvSend (text_request b r) (inl e))) s).
Proof.
  intros Hl Hm Hc Hs.
  unfold _send, bind at 1. rewrite (msg_plain_text W b r [] s Hl Hc).
  unfold bind at 1. rewrite get_config_plain by done.
  unfold bind at 1. unfold media_type, set_media_type.
  change (select _ _) with (rq_kwargs (text_request b r)).
  change (mkRequest TEXT (Some r) (rq_kwargs (text_request b r)))
    with (text_request b r).
  unfold transport_send, bind, get, emit, after. simpl. by rewrite Hs.
Qed.

Lemma send_calls_app tr evs :
  send_calls (tr ++ evs)%list = (send_calls tr + send_calls evs)%nat.
Proof. unfold send_calls. by rewrite List.filter_app, length_app. Qed.

(** When an error reply is configured and the transport rejects it, the
    recovery of that failure sends the error reply again, and so on:
    [handle_error] attempts one send per level of the recursion that the
    budget allows, delivers nothing, and does not come back. *)
Theorem error_reply_loop (W : World) (b : Bot) (r : string) (n : nat) (s : Session) :
  error_reply (config b) = Some r ->
  language_feature (config b) = false -> mark_as_answer (config b) = false ->
  contains_char ":" r = false ->
  (forall h rq, exists e, send_reply W h rq = inl e /\
                          exn_cls e = TelegramError /\ is_Some (exn_args e !! 0%nat)) ->
  fst (handle_error W b n s) = Diverge /\
  send_calls (trace (after (handle_error W b n) s)) = (send_calls (trace s) + n)%nat /\
  outbound (trace (after (handle_error W b n) s)) = outbound (trace s).
Proof.
  intros Hr Hl Hm Hc Hw. revert s. induction n as [|n IH]; intros s.
  - unfold handle_error, after. rewrite Hr. simpl. split; [done|]. split; [lia|done].
  - destruct (Hw (trace s) (text_request b r)) as (e & He & Hcls & [m0 Hm0]).
    assert (Hb : prepare_body W b (VAnswer (Answer_new r [])) "" s
                 = (Raise e, after (emit (EvSend (text_request b r) (inl e))) s)).
    { unfold prepare_body, unify_answer, dispatch_answer. simpl.
      unfold bind at 1. simpl. unfold bind at 1. unfold bind at 1.
      by rewrite (send_text_rejected W b r s e Hl Hm Hc He). }
    set (txt := "" ++ nl ++ tab ++
                "The request could not be fulfilled as an API error occured:" ++
                nl ++ tab ++ tab ++ m0 ++ nl ++ tab ++
                "Nothing was returned to the user").
    assert (Heq :
               handle_error W b (S n) s
               = (match fst (handle_error W b n
                               (after (log_ WARNING txt)
                                  (after (emit (EvSend (text_request b r) (inl e))) s)))
                  with
                  | Return _ => Return tt
                  | Raise e' => Raise e'
                  | Diverge => Diverge
                  end,
                  after (handle_error W b n)
                    (after (log_ WARNING txt)
                       (after (emit (EvSend (text_request b r) (inl e))) s)))).
    { unfold handle_error at 1. rewrite Hr, prepare_answer_unfold.
      unfold guarded, bind at 1, try_except. rewrite Hb.
      unfold prepare_except. rewrite Hcls, Hm0. simpl.
      unfold bind at 1. unfold bind at 1. simpl. unfold bind at 1.
      unfold after, log_, emit. simpl. fold txt.
      match goal with
      | |- context [handle_error W b n ?s2] =>
          destruct (handle_error W b n s2) as [[[]| |] s3]
      end; reflexivity. }
    change (after (handle_error W b (S n)) s) with (snd (handle_error W b (S n) s)).
    rewrite Heq.
    destruct (IH (after (log_ WARNING txt)
                    (after (emit (EvSend (text_request b r) (inl e))) s)))
      as (Hd & Hsc & Ho).
    simpl. rewrite Hd, Hsc, Ho. split; [done|]. clear. simpl.
    rewrite !send_calls_app, !outbound_app. unfold send_calls at 2 3, outbound at 2 3.
    simpl. split; lia.
Qed.

Lemma error_reply_loop_witness :
  fst (handle_error offline_world (failing_bot fails_with_message (Some "Sorry")) 3
                    (session_of "de")) = Diverge /\
  send_calls (trace (after (handle_error offline_world
                              (failing_bot fails_with_message (Some "Sorry")) 3)
                           (session_of "de")))
  = (send_calls (trace (session_of "de")) + 3)%nat /\
  outbound (trace (after (handle_error offline_world
                            (failing_bot fails_with_message (Some "Sorry")) 3)
                         (session_of "de")))
  = outbound (trace (session_of "de")).
Proof.
  apply (error_reply_loop offline_world (failing_bot fails_with_message (Some "Sorry"))
           "Sorry" 3 (session_of "de")); try reflexivity.
  intros h rq. exists gateway_error. repeat split. by eexists.
Defined.

(** ** Empty batches *)

Lemma bind_try_raise {A B} (m : Py A) (h : exn -> Py A) (k : A -> Py B) s e s1 :
  m s = (Raise e, s1) -> bind (try_except m h) k s = bind (h e) k s1.
Proof. intros H. unfold bind, try_except. by rewrite H. Qed.

(** An empty list or tuple returned by a handler is not an empty batch:
    the look at its first element fails, and [prepare_answer] recovers as
    from a failed send, with a warning that carries the message of the
    IndexError (the one of a list for a list, the one of a tuple for a
    tuple) and with the error reply if one is configured.  An empty
    generator is an empty batch: nothing is sent and nothing is
    reported. *)
Theorem empty_batches (W : World) (b : Bot) (n : nat) (log : string) (s : Session) :
  (exists tail,
     prepare_answer W b (S n) (VList []) log s
     = (log_ WARNING
          (log ++ nl ++ tab ++
           "During the sending of the bot's answer occured an error" ++ nl ++
           tab ++ tab ++ "Error message: " ++ "list index out of range" ++ nl ++
           tail) ;;;
        handle_error W b n) s) /\
  (exists tail,
     prepare_answer W b (S n) (VTuple []) log s
     = (log_ WARNING
          (log ++ nl ++ tab ++
           "During the sending of the bot's answer occured an error" ++ nl ++
           tab ++ tab ++ "Error message: " ++ "tuple index out of range" ++ nl ++
           tail) ;;;
        handle_error W b n) s) /\
  prepare_answer W b (S n) (VGen []) log s
  = (if negb (String.eqb log "") then log_ INFO log else ret tt) s.
Proof.
  assert (H : forall body what,
             body s = (Raise (builtin_exn IndexError what), s) ->
             guarded W b n log body s
             = (log_ WARNING
                  (log ++ nl ++ tab ++
                   "During the sending of the bot's answer occured an error" ++ nl ++
                   tab ++ tab ++ "Error message: " ++ what ++ nl ++
                   traceback_text (builtin_exn IndexError what) ++
                   tab ++ "Nothing was returned to the user" ++ nl ++ tab ++
                   "You may report this bug as it either should not have occured" ++
                   "or should have been properly caught") ;;;
                handle_error W b n) s).
  { intros body what Hb. unfold guarded.
    rewrite (bind_try_raise _ _ _ s _ s Hb).
    change (prepare_except (handle_error W b n) log (builtin_exn IndexError what))
      with (log_ WARNING
              (log ++ nl ++ tab ++
               "During the sending of the bot's answer occured an error" ++ nl ++
               tab ++ tab ++ "Error message: " ++ what ++ nl ++
               traceback_text (builtin_exn IndexError what) ++
               tab ++ "Nothing was returned to the user" ++ nl ++ tab ++
               "You may report this bug as it either should not have occured" ++
               "or should have been properly caught") ;;;
            handle_error W b n ;;; ret false).
    rewrite bind_assoc. apply bind_ext. intros _ s1.
    unfold bind. by destruct (handle_error W b n s1) as [[[]| |] s2]. }
  split; [|split].
  - eexists. rewrite prepare_answer_unfold. by apply H.
  - eexists. rewrite prepare_answer_unfold. by apply H.
  - rewrite prepare_answer_unfold. unfold guarded, try_except, bind. simpl.
    by destruct (negb (String.eqb log "")).
Qed.

(** ** A value turned into one text message *)



